(** * serum-vial: the distribution worker ([src/minion.ts])

    A shallow embedding of the worker ("minion") that serves the HTTP
    endpoints and the WebSocket subscriptions: the per-connection rate
    limiter, the validator of control messages, the snapshot caches and the
    recent-trades buffers, the subscription handler and the two HTTP
    handlers.

    JavaScript objects used as dictionaries are finite maps ([gmap]) over
    their own string keys; numbers that only count (windows, calls) are
    integers ([Z]), exact for the doubles of the source below 2^53.
    Exceptions are explicit: a computation that may throw returns a
    [completion]. *)

From Stdlib Require Import ZArith Lia.
From stdpp Require Import gmap strings list.

Open Scope Z_scope.

Set Warnings "-register-all".

(** ** JavaScript values and completions *)

(** What [JSON.parse] can return. A number keeps its literal: the worker
    never computes with one. *)
Inductive json :=
| JNull
| JBool (b : bool)
| JNumber (literal : string)
| JString (s : string)
| JArray (elements : list json)
| JObject (members : list (string * json)).

(** A JavaScript value read from a property: [None] is [undefined]. *)
Definition jsval := option json.

Inductive completion (A : Type) :=
| Normal (a : A)
| Throws (error : string).
Arguments Normal {A} a.
Arguments Throws {A} error.

#[global] Instance completion_ret : MRet completion := fun A a => Normal a.
#[global] Instance completion_bind : MBind completion := fun A B f c =>
  match c with Normal a => f a | Throws e => Throws e end.

Fixpoint member (key : string) (members : list (string * json)) : jsval :=
  match members with
  | [] => None
  | (k, v) :: rest => if bool_decide (k = key) then Some v else member key rest
  end.

(** [payload.key] for the keys the worker reads ([op], [channel], [markets]),
    which no prototype defines: reading a property of [null] throws, of an
    object gives its own member, of anything else gives [undefined]. *)
Definition get (payload : json) (key : string) : completion jsval :=
  match payload with
  | JNull => Throws "TypeError: Cannot read properties of null"
  | JObject members => Normal (member key members)
  | _ => Normal None
  end.

(** [allowed.includes(v)] on an array of strings. *)
Definition includes (allowed : list string) (v : jsval) : bool :=
  match v with
  | Some (JString s) => bool_decide (s ∈ allowed)
  | _ => false
  end.

(** The string a value is once a check by [includes] has passed. *)
Definition as_string (v : jsval) : string :=
  match v with
  | Some (JString s) => s
  | _ => EmptyString
  end.

(** [parts.join(sep)] *)
Fixpoint join (sep : string) (parts : list string) : string :=
  match parts with
  | [] => EmptyString
  | [p] => p
  | p :: rest => p +:+ sep +:+ join sep rest
  end.

(** Whether converting a parsed value to a string throws. An object is
    converted by its [toString], then its [valueOf]: with a member
    [toString] (no parsed value is callable) neither gives a primitive, and
    the conversion is a TypeError; without one it is [Object.prototype]'s.
    An array is the join of its elements' conversions. *)
Fixpoint unprintable (v : json) : bool :=
  match v with
  | JObject members => bool_decide (is_Some (member "toString" members))
  | JArray elements => existsb unprintable elements
  | _ => false
  end.

Definition throws_in_template (v : jsval) : bool :=
  match v with
  | Some j => unprintable j
  | None => false
  end.

(** A template literal whose text substitutes the value [v]: it throws when
    the conversion of [v] does. *)
Definition template_literal (v : jsval) (text : string) : completion string :=
  if throws_in_template v
  then Throws "TypeError: Cannot convert object to primitive value"
  else Normal text.

(** The names that every plain object inherits from [Object.prototype]. *)
Definition Object_prototype_members : list string :=
  ["constructor"; "__defineGetter__"; "__defineSetter__"; "hasOwnProperty";
   "__lookupGetter__"; "__lookupSetter__"; "isPrototypeOf";
   "propertyIsEnumerable"; "toString"; "valueOf"; "__proto__"; "toLocaleString"].

(** [object[key] = value] on a plain object used as a dictionary, whose own
    properties are the finite map: the assignment makes or overwrites an own
    property, but for the key [__proto__], whose setter on the prototype
    ignores a string and [undefined]. *)
Definition assign {V : Type} (object : gmap string V) (key : string) (value : V)
    : gmap string V :=
  if bool_decide (key = "__proto__") then object else <[key := value]> object.

(** The own property [key] of such an object: assignments make none that is
    named [__proto__]. *)
Definition own {V : Type} (object : gmap string V) (key : string) : option V :=
  if bool_decide (key = "__proto__") then None else object !! key.

(** ** What the worker imports

    [./consts] and [./helpers] are not part of the sources at hand, and the
    built-ins are JavaScript's: the worker is modelled over any of them. *)
Inductive ws_call :=
| WsSend (message : string)
| WsSubscribe (topic : string)
| WsUnsubscribe (topic : string)
| WsEnd (code : Z) (message : string).

Class Imports := {
  (** [./consts] *)
  CHANNELS : list string;
  MESSAGE_TYPES_PER_CHANNEL : gmap string (list string);
  (** [./helpers] *)
  getDidYouMean : jsval → list string → string;
  getAllowedValuesText : list string → string;
  (** built-ins: [JSON.parse] ([None] when it throws), [JSON.stringify(v)],
      [JSON.stringify(v, null, 2)], the conversion of a template literal
      and [decodeURIComponent] ([None] when it throws) *)
  JSON_parse : string → option json;
  JSON_stringify : json → string;
  JSON_stringify_indented : json → string;
  template : jsval → string;
  decodeURIComponent : string → option string;
  (** uWebSockets.js: whether a method of the connection throws, given the
      calls already made on it *)
  ws_throws : list ws_call → ws_call → bool;
}.

(** Modelled from the spec: [OPS] of [./consts], "the two recognized
    operations ([subscribe], [unsubscribe])". *)
Definition OPS : list string := ["subscribe"; "unsubscribe"].

(** ** The recent-trades buffer *)

(** Modelled from the spec: [CircularBuffer] of [./helpers], a
    "fixed-capacity ring buffer ..., oldest evicted on overflow", read in
    insertion order. *)
Record CircularBuffer := { bufferSize : nat; buffer : list string }.

Definition CircularBuffer_new (size : nat) : CircularBuffer :=
  {| bufferSize := size; buffer := [] |}.

Definition append (b : CircularBuffer) (value : string) : CircularBuffer :=
  let l := buffer b ++ [value] in
  {| bufferSize := bufferSize b; buffer := drop (length l - bufferSize b)%nat l |}.

Definition items (b : CircularBuffer) : list string := buffer b.

(** ** The rate limiter ([RateLimit], lines 34-49) *)

Module RateLimiter.

(** The two symbol-keyed properties the limiter attaches to a connection
    object. The source writes both in the same branch, so a connection has
    either none of them (never seen) or both. *)
Record fields := { last : Z; count : Z }.

(** The closure [(ws) => ...] returned by [RateLimit(limit, interval)], run
    at the current value [now] of the window counter on the properties of
    [ws]. It returns the updated properties and the closure's result:
    [true] means "over the limit" (the caller rejects the message).

    [ws[last] != now] holds for a connection never seen, whose [ws[last]] is
    [undefined]. *)
Definition RateLimit (limit : Z) (now : Z) (ws : option fields) : fields * bool :=
  match ws with
  | Some f =>
      if bool_decide (last f ≠ now)
      then ({| last := now; count := 1 |}, false)
      else ({| last := last f; count := count f + 1 |},
            bool_decide (count f + 1 > limit))
  | None => ({| last := now; count := 1 |}, false)
  end.

(** The limiter as a whole: the window counter [now] of the closure's
    environment and the properties of every connection. *)
Record limiter := { now : Z; conns : gmap nat fields }.

Definition init : limiter := {| now := 0; conns := ∅ |}.

(** [setInterval(() => ++now, interval)] *)
Definition tick (l : limiter) : limiter :=
  {| now := now l + 1; conns := conns l |}.

Definition call (limit : Z) (l : limiter) (ws : nat) : limiter * bool :=
  let r := RateLimit limit (now l) (conns l !! ws) in
  ({| now := now l; conns := <[ws := r.1]> (conns l) |}, r.2).

Inductive event := Tick | Call (ws : nat).

(** One log entry per call: the window it fell in, the connection, and
    whether it was rejected. *)
Record entry := { window : Z; conn : nat; rejected : bool }.

Fixpoint run (limit : Z) (l : limiter) (evs : list event) : list entry :=
  match evs with
  | [] => []
  | Tick :: evs => run limit (tick l) evs
  | Call ws :: evs =>
      let r := call limit l ws in
      {| window := now l; conn := ws; rejected := r.2 |} :: run limit r.1 evs
  end.

(** The limiter after a sequence of ticks and calls. *)
Fixpoint after (limit : Z) (l : limiter) (evs : list event) : limiter :=
  match evs with
  | [] => l
  | Tick :: evs => after limit (tick l) evs
  | Call ws :: evs => after limit (call limit l ws).1 evs
  end.

Definition here (w : Z) (c : nat) (e : entry) : bool :=
  bool_decide (window e = w) && bool_decide (conn e = c).

(** The verdicts of the calls of connection [c] in window [w], in order. *)
Definition verdicts (w : Z) (c : nat) (log : list entry) : list bool :=
  rejected <$> filter (fun e => here w c e = true) log.

(** How many of them were accepted. *)
Definition accepted (w : Z) (c : nat) (log : list entry) : nat :=
  length (filter (fun r => r = false) (verdicts w c log)).

(** Calls of [c] already counted in window [w]. *)
Definition used (l : limiter) (w : Z) (c : nat) : Z :=
  match conns l !! c with
  | Some f => if bool_decide (last f = w) then count f else 0
  | None => 0
  end.

(** Every stored window is a past or the present one, and a stored count is
    at least one. *)
Definition wf (l : limiter) : Prop :=
  ∀ c f, conns l !! c = Some f → last f ≤ now l ∧ 1 ≤ count f.

(** The verdict of the [k]-th call (from 1) of a connection in a window. *)
Definition verdict_of (limit : Z) (k : Z) : bool :=
  bool_decide (2 ≤ k ∧ k > limit).

End RateLimiter.

(** ** The worker's state *)

Record SerumMarket := {
  name : string;
  address : string;
  programId : string;
  deprecated : bool
}.

Record Minion := {
  _markets : list SerumMarket;
  _l2SnapshotsSerialized : gmap string string;
  _l3SnapshotsSerialized : gmap string string;
  _recentTrades : gmap string CircularBuffer;
  _recentTradesSerialized : gmap string (option string);
  _quotesSerialized : gmap string string;
  _marketNames : list string;
  _cachedListMarketsResponse : option string
}.

Definition MAX_MESSAGES_PER_SECOND : Z := 50.

(** [new Minion(nodeEndpoint, markets)] *)
Definition Minion_new (markets : list SerumMarket) : Minion :=
  {| _markets := markets;
     _l2SnapshotsSerialized := ∅;
     _l3SnapshotsSerialized := ∅;
     _recentTrades := ∅;
     _recentTradesSerialized := ∅;
     _quotesSerialized := ∅;
     _marketNames := name <$> markets;
     _cachedListMarketsResponse := None |}.

Definition set_l2 (m : Minion) (v : gmap string string) : Minion :=
  {| _markets := _markets m;
     _l2SnapshotsSerialized := v;
     _l3SnapshotsSerialized := _l3SnapshotsSerialized m;
     _recentTrades := _recentTrades m;
     _recentTradesSerialized := _recentTradesSerialized m;
     _quotesSerialized := _quotesSerialized m;
     _marketNames := _marketNames m;
     _cachedListMarketsResponse := _cachedListMarketsResponse m |}.

Definition set_l3 (m : Minion) (v : gmap string string) : Minion :=
  {| _markets := _markets m;
     _l2SnapshotsSerialized := _l2SnapshotsSerialized m;
     _l3SnapshotsSerialized := v;
     _recentTrades := _recentTrades m;
     _recentTradesSerialized := _recentTradesSerialized m;
     _quotesSerialized := _quotesSerialized m;
     _marketNames := _marketNames m;
     _cachedListMarketsResponse := _cachedListMarketsResponse m |}.

Definition set_quotes (m : Minion) (v : gmap string string) : Minion :=
  {| _markets := _markets m;
     _l2SnapshotsSerialized := _l2SnapshotsSerialized m;
     _l3SnapshotsSerialized := _l3SnapshotsSerialized m;
     _recentTrades := _recentTrades m;
     _recentTradesSerialized := _recentTradesSerialized m;
     _quotesSerialized := v;
     _marketNames := _marketNames m;
     _cachedListMarketsResponse := _cachedListMarketsResponse m |}.

Definition set_trades (m : Minion) (v : gmap string CircularBuffer)
    (s : gmap string (option string)) : Minion :=
  {| _markets := _markets m;
     _l2SnapshotsSerialized := _l2SnapshotsSerialized m;
     _l3SnapshotsSerialized := _l3SnapshotsSerialized m;
     _recentTrades := v;
     _recentTradesSerialized := s;
     _quotesSerialized := _quotesSerialized m;
     _marketNames := _marketNames m;
     _cachedListMarketsResponse := _cachedListMarketsResponse m |}.

Definition set_markets_response (m : Minion) (v : option string) : Minion :=
  {| _markets := _markets m;
     _l2SnapshotsSerialized := _l2SnapshotsSerialized m;
     _l3SnapshotsSerialized := _l3SnapshotsSerialized m;
     _recentTrades := _recentTrades m;
     _recentTradesSerialized := _recentTradesSerialized m;
     _quotesSerialized := _quotesSerialized m;
     _marketNames := _marketNames m;
     _cachedListMarketsResponse := v |}.

(** [this._recentTradesSerialized[symbol]]: an absent key and a key set to
    [undefined] read the same. *)
Definition serialized_trades (m : Minion) (symbol : string) : option string :=
  default None (_recentTradesSerialized m !! symbol).

(** ** Data ingestion ([processMessage], lines 189-219) *)

Record MessageEnvelope := {
  type : string;
  symbol : string;
  payload : string;
  publish : bool
}.

(** A call of [this._server.publish(topic, payload)]. *)
Record publication := { pub_topic : string; pub_payload : string }.

Definition topic_of (type market : string) : string :=
  type +:+ "/" +:+ market.

Definition processMessage (m : Minion) (message : MessageEnvelope)
    : completion (Minion * list publication) :=
  let topic := topic_of (type message) (symbol message) in
  let m :=
    if bool_decide (type message = "l2snapshot")
    then set_l2 m (assign (_l2SnapshotsSerialized m) (symbol message) (payload message))
    else m in
  let m :=
    if bool_decide (type message = "l3snapshot")
    then set_l3 m (assign (_l3SnapshotsSerialized m) (symbol message) (payload message))
    else m in
  let m :=
    if bool_decide (type message = "quote")
    then set_quotes m (assign (_quotesSerialized m) (symbol message) (payload message))
    else m in
  m ← (if bool_decide (type message = "trade")
       then
         (* [this._recentTrades[symbol] === undefined] fails on an own
            buffer and on a member inherited from the prototype *)
         let trades :=
           match own (_recentTrades m) (symbol message) with
           | None =>
               if bool_decide (symbol message ∈ Object_prototype_members)
               then _recentTrades m
               else <[symbol message := CircularBuffer_new 100]> (_recentTrades m)
           | Some _ => _recentTrades m
           end in
         (* an inherited member has no [append] *)
         match own trades (symbol message) with
         | None => Throws "TypeError: append is not a function"
         | Some b =>
             Normal (set_trades m
                       (<[symbol message := append b (payload message)]> trades)
                       (assign (_recentTradesSerialized m) (symbol message) None))
         end
       else Normal m);
  Normal (m, if publish message
             then [{| pub_topic := topic; pub_payload := payload message |}]
             else []).

(** The worker fed a sequence of data events, and what it published. *)
Fixpoint ingest (m : Minion) (messages : list MessageEnvelope)
    : completion (Minion * list publication) :=
  match messages with
  | [] => Normal (m, [])
  | message :: rest =>
      r ← processMessage m message;
      r' ← ingest r.1 rest;
      Normal (r'.1, r.2 ++ r'.2)
  end.

(** The payloads of the trades of one symbol, in arrival order. *)
Definition trades_of (symbol' : string) (messages : list MessageEnvelope) : list string :=
  payload <$> filter (fun e => type e = "trade" ∧ symbol e = symbol') messages.

(** The buffer of a symbol as [_listRecentTrades] reads it. *)
Definition recent_trades (m : Minion) (symbol : string) : list string :=
  match _recentTrades m !! symbol with
  | Some b => items b
  | None => []
  end.

(** ** The connection and the calls made on it *)

(** A uWebSockets.js connection as the worker sees it: the properties of the
    rate limiter and the method calls that went through. *)
Record WebSocket := {
  limiter_fields : option RateLimiter.fields;
  calls : list ws_call
}.

(** Code that calls methods of the connection and may throw. *)
Definition effect (A : Type) : Type := list ws_call → completion A * list ws_call.

#[global] Instance effect_ret : MRet effect := fun A a done => (Normal a, done).
#[global] Instance effect_bind : MBind effect := fun A B f c done =>
  match c done with
  | (Normal a, done') => f a done'
  | (Throws e, done') => (Throws e, done')
  end.

Definition lift {A : Type} (c : completion A) : effect A := fun done => (c, done).

(** [try { body } catch (err) { handler }] *)
Definition try_catch {A : Type} (body : effect A) (handler : string → effect A) : effect A :=
  fun done =>
    match body done with
    | (Normal a, done') => (Normal a, done')
    | (Throws e, done') => handler e done'
    end.

(** [for (const x of l) { body }] *)
Fixpoint for_of {A : Type} (l : list A) (body : A → effect unit) : effect unit :=
  match l with
  | [] => mret tt
  | x :: rest => _ ← body x; for_of rest body
  end.

(** ** The HTTP response object *)

Inductive res_call :=
| ResWriteHeader (key value : string)
| ResWriteStatus (status : string)
| ResEnd (body : string).

(** [discarded]: the client went away and uWebSockets.js invalidated the
    object; [onAborted]: a callback is registered; [aborted]: the property
    that the worker's callback sets; [written]: the writes that went
    through. *)
Record HttpResponse := {
  discarded : bool;
  onAborted : bool;
  aborted : bool;
  written : list res_call
}.

Definition HttpResponse_new : HttpResponse :=
  {| discarded := false; onAborted := false; aborted := false; written := [] |}.

(** [res.onAborted(() => { res.aborted = true })] *)
Definition res_onAborted (res : HttpResponse) : HttpResponse :=
  {| discarded := discarded res; onAborted := true;
     aborted := aborted res; written := written res |}.

(** The client aborts: the object is invalidated and the registered callback
    runs. *)
Definition client_abort (res : HttpResponse) : HttpResponse :=
  {| discarded := true; onAborted := onAborted res;
     aborted := if onAborted res then true else aborted res;
     written := written res |}.

Definition discarded_access : string :=
  "Invalid access of discarded uWS.HttpResponse".

(** A write; uWebSockets.js throws on an invalidated object. *)
Definition res_do (c : res_call) (res : HttpResponse) : completion HttpResponse :=
  if discarded res then Throws discarded_access
  else Normal {| discarded := discarded res; onAborted := onAborted res;
                 aborted := aborted res; written := written res ++ [c] |}.

(** The status line that goes out for the writes made. uWebSockets.js
    formats a response in a linear buffer: [writeStatus] "has to be called
    first in any response, otherwise it will be called automatically with
    200 OK" (documentation of [HttpResponse.writeStatus]), by the first
    [writeHeader] or [end]; a status written later is not the response's. *)
Definition status_line (written : list res_call) : option string :=
  match written with
  | [] => None
  | ResWriteStatus status :: _ => Some status
  | _ :: _ => Some "200 OK"
  end.

(** A handler that either ran to its end or is suspended at an [await]. *)
Inductive suspension (A : Type) :=
| Finished (a : A)
| Awaiting (a : A).
Arguments Finished {A} a.
Arguments Awaiting {A} a.

(** ** The worker's handlers *)

Inductive validation :=
| Invalid (error : string)
| Valid (op channel : string) (markets : list string).

Record market_check := { isValid : bool; error : option string }.

Definition rate_limit_message : string :=
  "Too many requests, slow down. Current limit: 50 messages per second.".

Definition internal_error_message : string :=
  "Subscription request internal error".

(** [ErrorResponse] and [SuccessResponse] of [./types], as the object
    literals of the handler build them. *)
Definition ErrorResponse (message timestamp : string) : json :=
  JObject [("type", JString "error"); ("message", JString message);
           ("timestamp", JString timestamp)].

Definition SuccessResponse (type channel : string) (markets : list string)
    (timestamp : string) : json :=
  JObject [("type", JString type); ("channel", JString channel);
           ("markets", JArray (JString <$> markets));
           ("timestamp", JString timestamp)].

Section Worker.
Context `{Imports}.

(** The text of [`${v}`] when the conversion does not throw: a string is
    itself. *)
Definition in_template (v : jsval) : string :=
  match v with
  | Some (JString s) => s
  | _ => template v
  end.

Definition invalid_market_message (names : list string) (market : jsval) : string :=
  "Invalid market name provided: '" +:+ in_template market +:+ "'."
    +:+ getDidYouMean market names +:+ " " +:+ getAllowedValuesText names.

Definition invalid_op_message (op : jsval) : string :=
  "Invalid op: '" +:+ in_template op +:+ "'."
    +:+ getDidYouMean op OPS +:+ " " +:+ getAllowedValuesText OPS.

Definition invalid_channel_message (channel : jsval) : string :=
  "Invalid channel provided: '" +:+ in_template channel +:+ "'."
    +:+ getDidYouMean channel CHANNELS +:+ "  " +:+ getAllowedValuesText CHANNELS.

(** [_validateMarketName], lines 319-335 *)
Definition _validateMarketName (m : Minion) (marketName : string) : market_check :=
  if negb (bool_decide (marketName ∈ _marketNames m))
  then {| isValid := false;
          error := Some (invalid_market_message (_marketNames m)
                           (Some (JString marketName))) |}
  else {| isValid := true; error := None |}.

(** [_validateRequestPayload], lines 337-396. The request it returns is the
    payload itself; its three properties are kept. *)
Definition _validateRequestPayload (m : Minion) (message : string)
    : completion validation :=
  match JSON_parse message with
  | None => Normal (Invalid "Invalid JSON.")
  | Some payload =>
      op ← get payload "op";
      if negb (includes OPS op)
      then error ← template_literal op (invalid_op_message op); Normal (Invalid error)
      else
        channel ← get payload "channel";
        if negb (includes CHANNELS channel)
        then error ← template_literal channel (invalid_channel_message channel);
             Normal (Invalid error)
        else
          markets ← get payload "markets";
          match markets with
          | Some (JArray markets) =>
              if bool_decide (length markets = 0%nat)
              then Normal (Invalid "Invalid or empty markets array provided.")
              else if bool_decide (40 < length markets)%nat
              then Normal (Invalid "Too large markets array provided (> 40 items).")
              else
                match find (fun market => negb (includes (_marketNames m) (Some market)))
                           markets with
                | Some market =>
                    error ← template_literal (Some market)
                              (invalid_market_message (_marketNames m) (Some market));
                    Normal (Invalid error)
                | None =>
                    Normal (Valid (as_string op) (as_string channel)
                                  ((fun market => as_string (Some market)) <$> markets))
                end
          | _ => Normal (Invalid "Invalid or empty markets array provided.")
          end
  end.

(** A method call on the connection. *)
Definition ws_do (c : ws_call) : effect unit :=
  fun done =>
    if ws_throws done c
    then (Throws "Invalid access of closed uWS.WebSocket", done)
    else (Normal tt, done ++ [c]).

(** The body of the two nested loops of [_handleSubscriptionRequest], lines
    273-301. *)
Definition subscribe_market (m : Minion) (op type market : string) : effect unit :=
  let topic := topic_of type market in
  if bool_decide (op = "subscribe")
  then
    _ ← ws_do (WsSubscribe topic);
    _ ← (if bool_decide (type = "quote")
         then match _quotesSerialized m !! market with
              | Some quote => ws_do (WsSend quote)
              | None => mret tt
              end
         else mret tt);
    _ ← (if bool_decide (type = "l2snapshot")
         then match _l2SnapshotsSerialized m !! market with
              | Some l2Snapshot => ws_do (WsSend l2Snapshot)
              | None => mret tt
              end
         else mret tt);
    (if bool_decide (type = "l3snapshot")
     then match _l3SnapshotsSerialized m !! market with
          | Some l3Snapshot => ws_do (WsSend l3Snapshot)
          | None => mret tt
          end
     else mret tt)
  else ws_do (WsUnsubscribe topic).

(** The [try] block of [_handleSubscriptionRequest], lines 223-308, once the
    rate limiter has answered [limited]. *)
Definition try_block (m : Minion) (limited : bool) (timestamp : string)
    (buffer : string) : effect unit :=
  if limited
  then ws_do (WsSend (JSON_stringify (ErrorResponse rate_limit_message timestamp)))
  else
    validationResult ← lift (_validateRequestPayload m buffer);
    match validationResult with
    | Invalid error =>
        ws_do (WsSend (JSON_stringify (ErrorResponse error timestamp)))
    | Valid op channel markets =>
        _ ← ws_do (WsSend (JSON_stringify
               (SuccessResponse
                  (if bool_decide (op = "subscribe") then "subscribed" else "unsubscribed")
                  channel markets timestamp)));
        requestedTypes ← lift
          (match MESSAGE_TYPES_PER_CHANNEL !! channel with
           | Some types => Normal types
           | None => Throws "TypeError: requestedTypes is not iterable"
           end);
        for_of requestedTypes (fun type =>
          for_of markets (fun market => subscribe_market m op type market))
    end.

(** [_handleSubscriptionRequest], lines 221-317, on a message that arrives
    when the limiter's window counter is [now]. *)
Definition _handleSubscriptionRequest (m : Minion) (now : Z) (timestamp : string)
    (ws : WebSocket) (buffer : string) : completion WebSocket :=
  let limited :=
    RateLimiter.RateLimit MAX_MESSAGES_PER_SECOND now (limiter_fields ws) in
  let handled :=
    try_catch (try_block m limited.2 timestamp buffer)
      (fun err =>
         try_catch (ws_do (WsEnd 1011 internal_error_message))
           (fun _ => mret tt))
      (calls ws) in
  _ ← handled.1;
  Normal {| limiter_fields := Some limited.1; calls := handled.2 |}.

(** The guarded write that ends both HTTP handlers. *)
Definition respond (body : string) (res : HttpResponse) : completion HttpResponse :=
  if negb (aborted res)
  then
    res ← res_do (ResWriteHeader "content-type" "application/json") res;
    res_do (ResEnd body) res
  else Normal res.

(** [_listRecentTrades], lines 109-135: no [await], the handler runs to its
    end when the request arrives. *)
Definition _listRecentTrades (m : Minion) (res : HttpResponse) (parameter : string)
    : completion (Minion * HttpResponse) :=
  let res := res_onAborted res in
  match decodeURIComponent parameter with
  | None => Throws "URIError: URI malformed"
  | Some marketName =>
      let check := _validateMarketName m marketName in
      if negb (isValid check)
      then
        res ← res_do (ResWriteHeader "content-type" "application/json") res;
        res ← res_do (ResWriteStatus "400") res;
        res ← res_do (ResEnd (JSON_stringify
                 (JObject [("error", JString (default EmptyString (error check)))]))) res;
        Normal (m, res)
      else
        let serializedRecentTrades :=
          match serialized_trades m marketName with
          | Some serialized => serialized
          | None => "[" +:+ join "," (recent_trades m marketName) +:+ "]"
          end in
        res ← respond serializedRecentTrades res;
        Normal (m, res)
  end.

(** [_listMarkets], lines 140-182, up to its [await] ... *)
Definition _listMarkets (m : Minion) (res : HttpResponse)
    : completion (suspension HttpResponse) :=
  let res := res_onAborted res in
  match _cachedListMarketsResponse m with
  | None => Normal (Awaiting res)
  | Some cached => res ← respond cached res; Normal (Finished res)
  end.

(** ... and from it on, with the worker as it is by then: [loaded] is the
    array the awaited promise resolved to, [None] when it rejected. The
    result carries what is posted on [serumMarketsChannel]. *)
Definition _listMarkets_resumed (m : Minion) (res : HttpResponse) (loaded : option json)
    : completion (Minion * list string * HttpResponse) :=
  match loaded with
  | None => Throws "Market.load rejected"
  | Some markets =>
      let cached := JSON_stringify_indented markets in
      let m := set_markets_response m (Some cached) in
      res ← respond cached res;
      Normal (m, [cached], res)
  end.

(** [initMarketsCache], lines 184-187 *)
Definition initMarketsCache (m : Minion) (cachedResponse : string) : Minion :=
  set_markets_response m (Some cachedResponse).

(** ** One HTTP request in the event loop

    A handler runs without interruption up to an [await] or to its end; the
    abort callback and the other handlers of the worker run only while it is
    suspended. *)
Inductive endpoint :=
| GetMarkets
| GetRecentTrades (parameter : string).

Inductive stage :=
| Arrived
| AwaitingMarkets
| Returned
| Rejected (error : string).

Record request := { worker : Minion; response : HttpResponse; at_stage : stage }.

Definition arrival (m : Minion) : request :=
  {| worker := m; response := HttpResponse_new; at_stage := Arrived |}.

(** The router calls the handler of the endpoint. *)
Definition handle (e : endpoint) (r : request) : request :=
  match e with
  | GetMarkets =>
      match _listMarkets (worker r) (response r) with
      | Normal (Finished res) =>
          {| worker := worker r; response := res; at_stage := Returned |}
      | Normal (Awaiting res) =>
          {| worker := worker r; response := res; at_stage := AwaitingMarkets |}
      | Throws err =>
          {| worker := worker r; response := response r; at_stage := Rejected err |}
      end
  | GetRecentTrades parameter =>
      match _listRecentTrades (worker r) (response r) parameter with
      | Normal (m, res) => {| worker := m; response := res; at_stage := Returned |}
      | Throws err =>
          {| worker := worker r; response := response r; at_stage := Rejected err |}
      end
  end.

(** The awaited promise settles and the handler goes on. *)
Definition resume (r : request) (loaded : option json) : request :=
  match _listMarkets_resumed (worker r) (response r) loaded with
  | Normal (m, _, res) => {| worker := m; response := res; at_stage := Returned |}
  | Throws err =>
      {| worker := worker r; response := response r; at_stage := Rejected err |}
  end.

Inductive step (e : endpoint) : request → request → Prop :=
| step_handle r :
    at_stage r = Arrived → step e r (handle e r)
| step_abort r :
    at_stage r = AwaitingMarkets →
    step e r {| worker := worker r; response := client_abort (response r);
                at_stage := AwaitingMarkets |}
| step_others r m :
    at_stage r = AwaitingMarkets →
    step e r {| worker := m; response := response r; at_stage := AwaitingMarkets |}
| step_resume r loaded :
    at_stage r = AwaitingMarkets → step e r (resume r loaded).

End Worker.

(** ** Notions of the specification *)

(** The last [n] elements of a list. *)
Definition last_n {A : Type} (n : nat) (l : list A) : list A :=
  drop (length l - n)%nat l.

(** The replay-eligible (snapshot-cacheable) types and the cache of each. *)
Definition snapshot_cache (m : Minion) (type : string) : option (gmap string string) :=
  if bool_decide (type = "quote") then Some (_quotesSerialized m)
  else if bool_decide (type = "l2snapshot") then Some (_l2SnapshotsSerialized m)
  else if bool_decide (type = "l3snapshot") then Some (_l3SnapshotsSerialized m)
  else None.

(** What a subscription to [type] of [market] pushes at once. *)
Definition replay (m : Minion) (type market : string) : list ws_call :=
  match snapshot_cache m type with
  | Some cache =>
      match cache !! market with
      | Some cached => [WsSend cached]
      | None => []
      end
  | None => []
  end.

(** The (type, market) pairs of a request, in the order of the handler's
    loops: every type of the channel with every entry of the markets array. *)
Definition requested_pairs (types markets : list string) : list (string * string) :=
  flat_map (fun type => (fun market => (type, market)) <$> markets) types.

(** The snapshot cached for a pair, if its type is replay-eligible. *)
Definition cached_snapshot (m : Minion) (pair : string * string) : option string :=
  match snapshot_cache m pair.1 with
  | Some cache => cache !! pair.2
  | None => None
  end.

(** The messages sent among the calls made on a connection. *)
Definition sent (made : list ws_call) : list string :=
  omap (fun c => match c with WsSend message => Some message | _ => None end) made.

(** How often [x] occurs in [l]. *)
Definition occurrences `{EqDecision A} (x : A) (l : list A) : nat :=
  length (filter (fun y => y = x) l).

(** What holds of a request at every stage: nothing is written on a
    response that the client has left. *)
Definition unwritten_if_left (res : HttpResponse) : Prop :=
  discarded res = true → written res = [].

Definition request_inv (r : request) : Prop :=
  match at_stage r with
  | Arrived => response r = HttpResponse_new
  | AwaitingMarkets =>
      onAborted (response r) = true ∧ written (response r) = []
      ∧ aborted (response r) = discarded (response r)
  | Returned => unwritten_if_left (response r)
  | Rejected err => err ≠ discarded_access ∧ unwritten_if_left (response r)
  end.

(** Every buffer of the worker was made with a capacity of 100 and holds at
    most as many trades. *)
Definition buffers_bounded (m : Minion) : Prop :=
  ∀ s b, _recentTrades m !! s = Some b →
    bufferSize b = 100%nat ∧ (length (buffer b) ≤ 100)%nat.

(** No serialized form of the recent trades is stored. *)
Definition memo_unset (m : Minion) : Prop :=
  ∀ s, serialized_trades m s = None.

(** A trade of [symbol] with payload [payload]. *)
Definition trade (symbol payload : string) (publish : bool) : MessageEnvelope :=
  {| type := "trade"; symbol := symbol; payload := payload; publish := publish |}.

(** ** A worker to run examples on *)

Definition dquote : string := String (Ascii.ascii_of_nat 34) EmptyString.

Definition quoted (s : string) : string := dquote +:+ s +:+ dquote.

(** [JSON.stringify] on values whose strings need no escape. *)
Fixpoint stringify (v : json) : string :=
  match v with
  | JNull => "null"
  | JBool b => if b then "true" else "false"
  | JNumber literal => literal
  | JString s => quoted s
  | JArray elements => "[" +:+ join "," (List.map stringify elements) +:+ "]"
  | JObject members =>
      "{" +:+ join "," (List.map (fun kv => quoted (fst kv) +:+ ":" +:+ stringify (snd kv))
                          members) +:+ "}"
  end.

(** [{op: "subscribe", channel: "level1", markets: ["BTC/USDT", "BTC/USDT"]}] *)
Definition subscribe_twice : json :=
  JObject [("op", JString "subscribe"); ("channel", JString "level1");
           ("markets", JArray [JString "BTC/USDT"; JString "BTC/USDT"])].

(** [JSON.parse] on the texts of the examples. *)
Definition example_parse (text : string) : option json :=
  if bool_decide (text = "null") then Some JNull
  else if bool_decide (text = stringify subscribe_twice) then Some subscribe_twice
  else None.

Definition example_imports : Imports :=
  {| CHANNELS := ["level3"; "level2"; "level1"; "trades"];
     MESSAGE_TYPES_PER_CHANNEL :=
       {[ "trades" := ["trade"];
          "level1" := ["trade"; "quote"];
          "level2" := ["l2snapshot"; "l2update"];
          "level3" := ["l3snapshot"; "open"; "fill"; "change"; "done"] ]};
     getDidYouMean := fun _ _ => EmptyString;
     getAllowedValuesText := fun allowed => "Allowed values: " +:+ join ", " allowed +:+ ".";
     JSON_parse := example_parse;
     JSON_stringify := stringify;
     JSON_stringify_indented := stringify;
     template := fun v => match v with Some j => stringify j | None => "undefined" end;
     decodeURIComponent := Some;
     ws_throws := fun _ _ => false |}.

Definition example_markets : list SerumMarket :=
  [{| name := "BTC/USDT"; address := "address"; programId := "program";
      deprecated := false |}].

Definition example_quote : MessageEnvelope :=
  {| type := "quote"; symbol := "BTC/USDT"; payload := "quote-1"; publish := true |}.

Definition example_ws : WebSocket := {| limiter_fields := None; calls := [] |}.

(** The worker once [example_quote] is cached. *)
Definition example_worker : Minion :=
  set_quotes (Minion_new example_markets) {[ "BTC/USDT" := "quote-1" ]}.

Definition example_time : string := "2021-01-01T00:00:00.000Z".

(** A request of the market list whose client goes away while the markets
    are loaded. *)
Definition example_aborted_request : request :=
  let r := @handle example_imports GetMarkets (arrival (Minion_new example_markets)) in
  let r := {| worker := worker r; response := client_abort (response r);
              at_stage := AwaitingMarkets |} in
  @resume example_imports r (Some (JArray [])).

(** ** Sequences of messages and further notions *)

(** The ticks and the calls of connection [c] among [evs]. *)
Definition is_own (c : nat) (e : RateLimiter.event) : bool :=
  match e with
  | RateLimiter.Tick => true
  | RateLimiter.Call ws => bool_decide (ws = c)
  end.

Definition own_events (c : nat) (evs : list RateLimiter.event) : list RateLimiter.event :=
  filter (fun e => is_own c e = true) evs.

(** The payload of the last event of [type'] for [symbol'] among [messages]. *)
Definition latest (type' symbol' : string) (messages : list MessageEnvelope)
    : option string :=
  last (payload <$> filter (fun e => type e = type' ∧ symbol e = symbol') messages).

(** What a sequence of events asks to publish. *)
Definition published (messages : list MessageEnvelope) : list publication :=
  (fun e => {| pub_topic := type e +:+ "/" +:+ symbol e; pub_payload := payload e |})
    <$> filter (fun e => publish e = true) messages.

(** The topics joined, and the topics left, among the calls on a connection. *)
Definition subscribed_topics (made : list ws_call) : list string :=
  omap (fun c => match c with WsSubscribe topic => Some topic | _ => None end) made.

Definition unsubscribed_topics (made : list ws_call) : list string :=
  omap (fun c => match c with WsUnsubscribe topic => Some topic | _ => None end) made.

(** A call that does not end the connection. *)
Definition not_end (c : ws_call) : Prop :=
  match c with
  | WsEnd _ _ => False
  | _ => True
  end.

(** Code that, whatever it returns or throws, only adds calls that do not
    end the connection. *)
Definition keeps_open {A : Type} (c : effect A) : Prop :=
  ∀ done r done', c done = (r, done') →
    ∃ added, done' = done ++ added ∧ Forall not_end added.

(** The messages of one connection, each with the time it is handled at,
    handled one after the other in the same window of the limiter (the
    [message] callback of the route, lines 85-87). *)
Fixpoint handle_all `{Imports} (m : Minion) (now : Z) (ws : WebSocket)
    (messages : list (string * string)) : completion WebSocket :=
  match messages with
  | [] => Normal ws
  | (timestamp, buffer) :: rest =>
      ws ← _handleSubscriptionRequest m now timestamp ws buffer;
      handle_all m now ws rest
  end.

(** What holds of a request of the market list at every stage: a response
    that was written holds the list that the worker has cached. *)
Definition markets_inv (r : request) : Prop :=
  match at_stage r with
  | Arrived => response r = HttpResponse_new
  | AwaitingMarkets =>
      onAborted (response r) = true ∧ written (response r) = []
      ∧ aborted (response r) = discarded (response r)
  | Returned =>
      discarded (response r) = false →
      ∃ body,
        written (response r)
        = [ResWriteHeader "content-type" "application/json"; ResEnd body]
        ∧ _cachedListMarketsResponse (worker r) = Some body
  | Rejected _ => written (response r) = []
  end.

(** [{op: "unsubscribe", channel: "level1", markets: ["BTC/USDT"]}] and a
    subscription to a market that the registry does not have. *)
Definition unsubscribe_once : json :=
  JObject [("op", JString "unsubscribe"); ("channel", JString "level1");
           ("markets", JArray [JString "BTC/USDT"])].

Definition unsubscribe_twice : json :=
  JObject [("op", JString "unsubscribe"); ("channel", JString "level1");
           ("markets", JArray [JString "BTC/USDT"; JString "BTC/USDT"])].

Definition subscribe_unknown : json :=
  JObject [("op", JString "subscribe"); ("channel", JString "trades");
           ("markets", JArray [JString "BTC/XXX"])].

(** A request of the market list that is answered once the markets are
    loaded. *)
Definition example_answered_request : request :=
  @resume example_imports
    (@handle example_imports GetMarkets (arrival (Minion_new example_markets)))
    (Some (JArray [])).

Definition example_parse_more (text : string) : option json :=
  if bool_decide (text = stringify unsubscribe_once) then Some unsubscribe_once
  else if bool_decide (text = stringify unsubscribe_twice) then Some unsubscribe_twice
  else if bool_decide (text = stringify subscribe_unknown) then Some subscribe_unknown
  else example_parse text.

Definition example_imports_more : Imports :=
  {| CHANNELS := @CHANNELS example_imports;
     MESSAGE_TYPES_PER_CHANNEL := @MESSAGE_TYPES_PER_CHANNEL example_imports;
     getDidYouMean := @getDidYouMean example_imports;
     getAllowedValuesText := @getAllowedValuesText example_imports;
     JSON_parse := example_parse_more;
     JSON_stringify := stringify;
     JSON_stringify_indented := stringify;
     template := @template example_imports;
     decodeURIComponent := Some;
     ws_throws := fun _ _ => false |}.

(** * Properties *)

(** ** The rate limiter *)

Section RateLimiterFacts.
Import RateLimiter.
Variable limit : Z.

Lemma wf_init : wf init.
Proof. intros c f Hc. unfold init in Hc. simpl in Hc. by rewrite lookup_empty in Hc. Qed.

Lemma wf_tick l : wf l → wf (tick l).
Proof.
  intros Hl c f Hc. destruct (Hl c f Hc) as [Hlast Hcount].
  simpl. split; [lia | done].
Qed.

Lemma RateLimit_fields now' (ws : option fields) :
  (∀ f, ws = Some f → RateLimiter.last f ≤ now' ∧ 1 ≤ RateLimiter.count f) →
  RateLimiter.last (RateLimit limit now' ws).1 = now'
  ∧ 1 ≤ RateLimiter.count (RateLimit limit now' ws).1.
Proof.
  intros Hws. unfold RateLimit. destruct ws as [f|]; simpl; [|lia].
  destruct (Hws f eq_refl) as [_ Hcount].
  case_bool_decide as Hne; simpl; [lia|].
  split; [|lia]. destruct (decide (RateLimiter.last f = now')); [done|contradiction].
Qed.

Lemma wf_call l ws : wf l → wf (call limit l ws).1.
Proof.
  intros Hl c f. unfold call. simpl.
  destruct (decide (ws = c)) as [->|Hne].
  - rewrite lookup_insert_eq. intros [= <-].
    destruct (RateLimit_fields (now l) (conns l !! c)) as [Hlast Hcount].
    + intros f Hf. by apply (Hl c).
    + lia.
  - rewrite lookup_insert_ne by done. apply Hl.
Qed.

Lemma wf_after evs : ∀ l, wf l → wf (after limit l evs).
Proof.
  induction evs as [|[|ws] evs IH]; intros l Hl; simpl; [done| |].
  - by apply IH, wf_tick.
  - by apply IH, wf_call.
Qed.

(** Nothing is logged in a window that is over. *)
Lemma verdicts_past w c evs :
  ∀ l, w < now l → verdicts w c (run limit l evs) = [].
Proof.
  induction evs as [|[|ws] evs IH]; intros l Hw; simpl; [done| |].
  - apply IH. simpl. lia.
  - unfold verdicts. rewrite filter_cons_False.
    + apply (IH (call limit l ws).1). simpl. lia.
    + unfold here. simpl. rewrite bool_decide_eq_false_2 by lia. done.
Qed.

Lemma used_call_here l c :
  wf l →
  used (call limit l c).1 (now l) c = used l (now l) c + 1
  ∧ (call limit l c).2 = verdict_of limit (used l (now l) c + 1).
Proof.
  intros Hl. unfold used, call, verdict_of, RateLimit. simpl.
  rewrite lookup_insert_eq.
  destruct (conns l !! c) as [f|] eqn:Hc; simpl.
  - destruct (Hl c f Hc) as [_ Hcount].
    destruct (decide (RateLimiter.last f = now l)) as [Heq|Hne].
    + rewrite (bool_decide_eq_false_2 (RateLimiter.last f ≠ now l)) by tauto.
      simpl. rewrite !bool_decide_eq_true_2 by done.
      split; [done|]. apply bool_decide_ext. lia.
    + rewrite (bool_decide_eq_true_2 (RateLimiter.last f ≠ now l)) by done.
      simpl. rewrite bool_decide_eq_true_2 by done.
      rewrite (bool_decide_eq_false_2 (RateLimiter.last f = now l)) by done.
      split; [done|]. symmetry. apply bool_decide_eq_false_2. lia.
  - rewrite bool_decide_eq_true_2 by done. done.
Qed.

Lemma used_call_elsewhere l ws w c :
  wf l → now l ≤ w → ¬ (now l = w ∧ ws = c) →
  used (call limit l ws).1 w c = used l w c.
Proof.
  intros Hl Hw Hne. unfold used, call. simpl.
  destruct (decide (ws = c)) as [->|Hws].
  - rewrite lookup_insert_eq.
    destruct (RateLimit_fields (now l) (conns l !! c)) as [Hlast _].
    { intros f Hf. by apply (Hl c). }
    rewrite bool_decide_eq_false_2 by lia.
    destruct (conns l !! c) as [f|] eqn:Hc; [|done].
    destruct (Hl c f Hc) as [Hf _].
    rewrite bool_decide_eq_false_2; [done|]. intros Heq. apply Hne. split; [lia|done].
  - by rewrite lookup_insert_ne.
Qed.

(** The calls of a connection in a window are numbered from the count the
    limiter holds for it, and the verdict on each depends on its number
    alone. *)
Lemma verdicts_numbered w c evs :
  ∀ l, wf l → now l ≤ w →
    verdicts w c (run limit l evs)
    = (fun i : nat => verdict_of limit (used l w c + 1 + Z.of_nat i))
        <$> seq 0 (length (verdicts w c (run limit l evs))).
Proof.
  induction evs as [|[|ws] evs IH]; intros l Hl Hw; cbn [run]; [done| |].
  - destruct (decide (now l + 1 ≤ w)) as [Hle|Hgt].
    + apply (IH (tick l)); [by apply wf_tick | simpl; lia].
    + rewrite verdicts_past; [done | simpl; lia].
  - cbv zeta. pose proof (wf_call l ws Hl) as Hl'.
    assert (Hnow' : now (call limit l ws).1 = now l) by done.
    set (l' := (call limit l ws).1) in *.
    destruct (decide (now l = w ∧ ws = c)) as [[Hnow ->]|Hne].
    + unfold verdicts. rewrite filter_cons_True.
      2:{ unfold here. cbn [window conn]. by rewrite !bool_decide_eq_true_2. }
      rewrite fmap_cons. cbn [rejected length seq fmap list_fmap].
      fold (verdicts w c (run limit l' evs)).
      destruct (used_call_here l c Hl) as [Hused Hverdict]. subst w.
      f_equal.
      * rewrite Hverdict. f_equal. lia.
      * rewrite (IH l' Hl') at 1 by lia.
        rewrite <- fmap_S_seq, <- list_fmap_compose.
        apply list_fmap_ext. intros _ i _. cbn [compose].
        fold l' in Hused. rewrite Hused. f_equal. lia.
    + unfold verdicts. rewrite filter_cons_False.
      2:{ unfold here. cbn [window conn]. intros Hb. apply andb_prop in Hb as [H1 H2].
          apply bool_decide_eq_true_1 in H1, H2. tauto. }
      fold (verdicts w c (run limit l' evs)).
      rewrite (IH l' Hl') at 1 by lia.
      unfold l'. by rewrite used_call_elsewhere.
Qed.

Lemma verdicts_from_init w c evs :
  verdicts w c (run limit init evs)
  = (fun i : nat => verdict_of limit (1 + Z.of_nat i))
      <$> seq 0 (length (verdicts w c (run limit init evs))).
Proof.
  destruct (decide (0 ≤ w)) as [Hw|Hw].
  - rewrite (verdicts_numbered w c evs init wf_init) at 1 by done.
    apply list_fmap_ext. intros _ i _. unfold used, init. simpl.
    by rewrite lookup_empty.
  - rewrite verdicts_past; [done | simpl; lia].
Qed.

Lemma accepted_numbered n : ∀ a : nat,
  1 ≤ limit →
  (length (filter (fun r => r = false)
     ((fun i : nat => verdict_of limit (1 + Z.of_nat i)) <$> seq a n))
   ≤ Z.to_nat limit - a)%nat.
Proof.
  induction n as [|n IH]; intros a Hlimit; [simpl; lia|].
  cbn [seq fmap list_fmap].
  destruct (verdict_of limit (1 + Z.of_nat a)) eqn:Hv.
  - rewrite filter_cons_False by done.
    etrans; [apply (IH (S a) Hlimit)|lia].
  - rewrite filter_cons_True by done. cbn [length].
    unfold verdict_of in Hv. apply bool_decide_eq_false_1 in Hv.
    pose proof (IH (S a) Hlimit) as IH'.
    assert (a < Z.to_nat limit)%nat by lia.
    etrans; [apply le_n_S, IH'|lia].
Qed.

(** C3. With a limit of at least one (the worker's is 50): a call whose
    connection holds another window than the current one (or none) resets the
    connection to (current window, 1) and is allowed; otherwise the count is
    incremented and the call is allowed iff the new count is at most the
    limit. So, over any sequence of ticks and calls from the start, a
    connection has at most [limit] calls accepted in a window, its [k]-th
    call in a window is rejected iff [k > limit] (the [limit+1]-th always
    is), and a call made in the window that follows is allowed. *)
Theorem RateLimit_fixed_window :
  1 ≤ limit →
  (∀ now' ws, RateLimiter.last <$> ws ≠ Some now' →
     RateLimit limit now' ws
     = ({| RateLimiter.last := now'; RateLimiter.count := 1 |}, false))
  ∧ (∀ now' f, RateLimiter.last f = now' →
       RateLimit limit now' (Some f)
       = ({| RateLimiter.last := now'; RateLimiter.count := RateLimiter.count f + 1 |},
          negb (bool_decide (RateLimiter.count f + 1 ≤ limit))))
  ∧ (∀ evs w c, (accepted w c (run limit init evs) ≤ Z.to_nat limit)%nat)
  ∧ (∀ evs w c (k : nat) r,
       verdicts w c (run limit init evs) !! k = Some r →
       r = bool_decide (limit < Z.of_nat k + 1))
  ∧ (∀ evs w c r,
       verdicts w c (run limit init evs) !! Z.to_nat limit = Some r → r = true)
  ∧ (∀ evs c, (call limit (tick (after limit init evs)) c).2 = false).
Proof.
  intros Hlimit.
  assert (Hkth : ∀ evs w c (k : nat) r,
    verdicts w c (run limit init evs) !! k = Some r →
    r = bool_decide (limit < Z.of_nat k + 1)).
  { intros evs w c k r. rewrite verdicts_from_init, list_lookup_fmap.
    destruct (seq _ _ !! k) as [i|] eqn:Hi; [|done].
    apply lookup_seq in Hi as [-> _]. intros [= <-].
    unfold verdict_of. apply bool_decide_ext. lia. }
  split; [|split; [|split; [|split; [|split]]]].
  - intros now' [f|] Hws; unfold RateLimit; [|done].
    rewrite bool_decide_eq_true_2; [done|]. intros Heq. apply Hws. simpl. by rewrite Heq.
  - intros now' f Hf. unfold RateLimit.
    rewrite bool_decide_eq_false_2 by tauto. rewrite Hf. f_equal.
    destruct (decide (RateLimiter.count f + 1 ≤ limit)).
    + rewrite bool_decide_eq_false_2 by lia. by rewrite bool_decide_eq_true_2.
    + rewrite bool_decide_eq_true_2 by lia. by rewrite bool_decide_eq_false_2.
  - intros evs w c. unfold accepted. rewrite verdicts_from_init.
    etrans; [by apply accepted_numbered|lia].
  - exact Hkth.
  - intros evs w c r Hr. rewrite (Hkth _ _ _ _ _ Hr).
    apply bool_decide_eq_true_2. lia.
  - intros evs c. pose proof (wf_after evs init wf_init) as Hwf.
    unfold call, RateLimit. cbn [snd tick now conns].
    destruct (conns (after limit init evs) !! c) as [f|] eqn:Hc; [|done].
    destruct (Hwf c f Hc) as [Hlast _].
    rewrite bool_decide_eq_true_2; [done|lia].
Qed.

End RateLimiterFacts.

Lemma RateLimit_fixed_window_witness :
  1 ≤ 50
  ∧ (∀ evs w c,
       (RateLimiter.accepted w c (RateLimiter.run 50 RateLimiter.init evs) ≤ 50)%nat).
Proof.
  split; [lia|].
  intros evs w c.
  exact (proj1 (proj2 (proj2 (RateLimit_fixed_window 50 ltac:(lia)))) evs w c).
Defined.

(** ** Data ingestion and the recent-trades buffers *)

Lemma last_n_length {A : Type} (n : nat) (l : list A) :
  (length (last_n n l) ≤ n)%nat.
Proof. unfold last_n. rewrite length_drop. lia. Qed.

Lemma last_n_short {A : Type} (n : nat) (l : list A) :
  (length l ≤ n)%nat → last_n n l = l.
Proof. intros Hl. unfold last_n. by replace (length l - n)%nat with 0%nat by lia. Qed.

Lemma last_n_app {A : Type} (n : nat) (l t : list A) :
  last_n n (last_n n l ++ t) = last_n n (l ++ t).
Proof.
  destruct (decide (length l ≤ n)%nat) as [Hle|Hgt].
  - by rewrite (last_n_short n l).
  - unfold last_n. rewrite !length_app, length_drop.
    replace (length l - (length l - n) + length t - n)%nat with (length t) by lia.
    replace (length l + length t - n)%nat with ((length l - n) + length t)%nat by lia.
    rewrite <- drop_drop. f_equal.
    rewrite drop_app_le by lia. done.
Qed.

Lemma append_items (b : CircularBuffer) (v : string) :
  items (append b v) = last_n (bufferSize b) (items b ++ [v]).
Proof. done. Qed.

Ltac case_type message :=
  repeat match goal with
  | |- context [bool_decide (type message = ?t)] =>
      destruct (decide (type message = t));
      [rewrite (bool_decide_eq_true_2 (type message = t)) by done
      |rewrite (bool_decide_eq_false_2 (type message = t)) by done]
  end.

Lemma own_lookup {V : Type} (object : gmap string V) (key : string) :
  key ∉ Object_prototype_members → own object key = object !! key.
Proof.
  intros Hkey. unfold own. rewrite bool_decide_eq_false_2; [done|].
  intros ->. apply Hkey. set_solver.
Qed.

(** [processMessage] on a trade whose symbol has no buffer of its own and
    names a member that the dictionary inherits. *)
Lemma processMessage_throws (m : Minion) (message : MessageEnvelope) :
  type message = "trade" →
  symbol message ∈ Object_prototype_members →
  own (_recentTrades m) (symbol message) = None →
  processMessage m message = Throws "TypeError: append is not a function".
Proof.
  intros Ht Hs Hown. unfold processMessage. rewrite !Ht. simpl.
  rewrite Hown, bool_decide_eq_true_2 by done. by rewrite Hown.
Qed.

(** What [processMessage] has done when it returns. *)
Lemma processMessage_normal (m m' : Minion) (message : MessageEnvelope)
    (pubs : list publication) :
  processMessage m message = Normal (m', pubs) →
  pubs = (if publish message
          then [{| pub_topic := type message +:+ "/" +:+ symbol message;
                   pub_payload := payload message |}]
          else [])
  ∧ _markets m' = _markets m
  ∧ _marketNames m' = _marketNames m
  ∧ _cachedListMarketsResponse m' = _cachedListMarketsResponse m
  ∧ _quotesSerialized m'
    = (if bool_decide (type message = "quote")
       then assign (_quotesSerialized m) (symbol message) (payload message)
       else _quotesSerialized m)
  ∧ _l2SnapshotsSerialized m'
    = (if bool_decide (type message = "l2snapshot")
       then assign (_l2SnapshotsSerialized m) (symbol message) (payload message)
       else _l2SnapshotsSerialized m)
  ∧ _l3SnapshotsSerialized m'
    = (if bool_decide (type message = "l3snapshot")
       then assign (_l3SnapshotsSerialized m) (symbol message) (payload message)
       else _l3SnapshotsSerialized m)
  ∧ _recentTrades m'
    = (if bool_decide (type message = "trade")
       then <[symbol message :=
                append (default (CircularBuffer_new 100)
                          (_recentTrades m !! symbol message))
                       (payload message)]> (_recentTrades m)
       else _recentTrades m)
  ∧ _recentTradesSerialized m'
    = (if bool_decide (type message = "trade")
       then <[symbol message := None]> (_recentTradesSerialized m)
       else _recentTradesSerialized m)
  ∧ (type message = "trade" → symbol message ≠ "__proto__")
  ∧ (type message = "trade" → _recentTrades m !! symbol message = None →
     symbol message ∉ Object_prototype_members)
  ∧ (type message ∉ ["quote"; "l2snapshot"; "l3snapshot"; "trade"] → m' = m).
Proof.
  unfold processMessage, topic_of.
  destruct (decide (type message = "trade")) as [Ht|Ht].
  - rewrite !Ht. simpl. unfold own at 1.
    destruct (decide (symbol message = "__proto__")) as [Hproto|Hproto].
    { rewrite bool_decide_eq_true_2 by done. done. }
    rewrite (bool_decide_eq_false_2 (symbol message = "__proto__")) by done.
    unfold own, assign.
    rewrite !(bool_decide_eq_false_2 (symbol message = "__proto__")) by done.
    destruct (_recentTrades m !! symbol message) as [b|] eqn:Hb.
    + rewrite Hb. 
      intros [= <- <-]. split_and!; try done.
      intros Hno. exfalso. apply Hno. set_solver.
    + case_bool_decide as Hs.
      * by rewrite Hb.
      * rewrite lookup_insert_eq.
        intros [= <- <-]. split_and!; try done.
        -- simpl. by rewrite insert_insert_eq.
        -- intros Hno. exfalso. apply Hno. set_solver.
  - rewrite (bool_decide_eq_false_2 (type message = "trade")) by done.
    case_type message; simpl; intros [= <- <-]; split_and!; try done; try congruence;
      try (intros Hno; exfalso; apply Hno; set_solver).
Qed.

(** [processMessage] returns on everything else. *)
Lemma processMessage_returns (m : Minion) (message : MessageEnvelope) :
  (type message = "trade" → own (_recentTrades m) (symbol message) = None →
   symbol message ∉ Object_prototype_members) →
  ∃ m' pubs, processMessage m message = Normal (m', pubs).
Proof.
  intros Hok. unfold processMessage.
  destruct (decide (type message = "trade")) as [Ht|Ht].
  - rewrite !Ht. simpl.
    destruct (own (_recentTrades m) (symbol message)) as [b|] eqn:Hb.
    + rewrite Hb. by do 2 eexists.
    + specialize (Hok Ht eq_refl).
      rewrite bool_decide_eq_false_2 by done.
      rewrite own_lookup, lookup_insert_eq by done. by do 2 eexists.
  - rewrite (bool_decide_eq_false_2 (type message = "trade")) by done.
    by do 2 eexists.
Qed.

Lemma lookup_assign {V : Type} (object : gmap string V) (key key' : string) (value : V) :
  assign object key value !! key'
  = if bool_decide (key = key' ∧ key ≠ "__proto__") then Some value else object !! key'.
Proof.
  unfold assign. case_bool_decide as Hproto.
  - rewrite bool_decide_eq_false_2; [done|]. tauto.
  - destruct (decide (key = key')) as [->|Hne].
    + by rewrite lookup_insert_eq, bool_decide_eq_true_2.
    + rewrite lookup_insert_ne by done. rewrite bool_decide_eq_false_2; [done|]. tauto.
Qed.

(** C4, on a trade whose symbol names a member of [Object.prototype], with
    what holds of every other event. A trade whose symbol is [constructor],
    [toString], [__proto__] or another name that the dictionary of buffers
    inherits, and that has no buffer of its own, makes [processMessage]
    throw: the inherited member is not [undefined], so no buffer is made,
    and it has no [append]. Every other event is processed: a quote,
    l2snapshot or l3snapshot assigns its payload to the slot of its symbol
    in the cache of its type (an assignment that the key [__proto__]
    ignores), a trade is appended to the buffer of its symbol (made with
    capacity 100 when it is the first), and the payload is published, to
    the topic type/symbol, exactly when the publish flag is set. *)
Theorem processMessage_caches_and_publishes (m : Minion) (message : MessageEnvelope) :
  (type message = "trade" →
   symbol message ∈ Object_prototype_members →
   own (_recentTrades m) (symbol message) = None →
   processMessage m message = Throws "TypeError: append is not a function")
  ∧ ((type message = "trade" → own (_recentTrades m) (symbol message) = None →
      symbol message ∉ Object_prototype_members) →
     ∃ m',
       processMessage m message
       = Normal (m', if publish message
                     then [{| pub_topic := type message +:+ "/" +:+ symbol message;
                              pub_payload := payload message |}]
                     else [])
       ∧ _quotesSerialized m'
         = (if bool_decide (type message = "quote" ∧ symbol message ≠ "__proto__")
            then <[symbol message := payload message]> (_quotesSerialized m)
            else _quotesSerialized m)
       ∧ _l2SnapshotsSerialized m'
         = (if bool_decide (type message = "l2snapshot" ∧ symbol message ≠ "__proto__")
            then <[symbol message := payload message]> (_l2SnapshotsSerialized m)
            else _l2SnapshotsSerialized m)
       ∧ _l3SnapshotsSerialized m'
         = (if bool_decide (type message = "l3snapshot" ∧ symbol message ≠ "__proto__")
            then <[symbol message := payload message]> (_l3SnapshotsSerialized m)
            else _l3SnapshotsSerialized m)
       ∧ _recentTrades m'
         = (if bool_decide (type message = "trade")
            then <[symbol message :=
                     append (default (CircularBuffer_new 100)
                               (_recentTrades m !! symbol message))
                            (payload message)]> (_recentTrades m)
            else _recentTrades m)).
Proof.
  split; [apply processMessage_throws|].
  intros Hok. destruct (processMessage_returns m message Hok) as (m' & pubs & Hrun).
  destruct (processMessage_normal m m' message pubs Hrun)
    as (-> & _ & _ & _ & Hq & Hl2 & Hl3 & Ht & _).
  exists m'. split; [done|]. rewrite Hq, Hl2, Hl3, Ht. unfold assign.
  split_and!; try done.
  - destruct (decide (type message = "quote")); destruct (decide (symbol message = "__proto__"));
      repeat (first [rewrite bool_decide_eq_true_2 by tauto
                    |rewrite bool_decide_eq_false_2 by tauto]); done.
  - destruct (decide (type message = "l2snapshot"));
      destruct (decide (symbol message = "__proto__"));
      repeat (first [rewrite bool_decide_eq_true_2 by tauto
                    |rewrite bool_decide_eq_false_2 by tauto]); done.
  - destruct (decide (type message = "l3snapshot"));
      destruct (decide (symbol message = "__proto__"));
      repeat (first [rewrite bool_decide_eq_true_2 by tauto
                    |rewrite bool_decide_eq_false_2 by tauto]); done.
Qed.

Lemma processMessage_caches_and_publishes_witness :
  processMessage (Minion_new example_markets) (trade "constructor" "trade-1" true)
  = Throws "TypeError: append is not a function".
Proof.
  destruct (processMessage_caches_and_publishes (Minion_new example_markets)
              (trade "constructor" "trade-1" true)) as [Hthrows _].
  apply Hthrows; [reflexivity| |reflexivity].
  apply list_elem_of_In. simpl. tauto.
Defined.

Lemma trades_of_cons (s : string) (message : MessageEnvelope) (rest : list MessageEnvelope) :
  trades_of s (message :: rest)
  = (if bool_decide (type message = "trade" ∧ symbol message = s)
     then [payload message] else []) ++ trades_of s rest.
Proof.
  unfold trades_of. case_bool_decide.
  - by rewrite filter_cons_True.
  - by rewrite filter_cons_False.
Qed.

Lemma recent_trades_bounded (m : Minion) (s : string) :
  buffers_bounded m → (length (recent_trades m s) ≤ 100)%nat.
Proof.
  intros Hm. unfold recent_trades.
  destruct (_recentTrades m !! s) as [b|] eqn:Hb; [|simpl; lia].
  by destruct (Hm s b Hb).
Qed.

Lemma processMessage_recent (m m' : Minion) (message : MessageEnvelope)
    (pubs : list publication) :
  buffers_bounded m →
  processMessage m message = Normal (m', pubs) →
  buffers_bounded m'
  ∧ (memo_unset m → memo_unset m')
  ∧ ∀ s, recent_trades m' s
         = last_n 100 (recent_trades m s ++ trades_of s [message]).
Proof.
  intros Hm Hrun.
  destruct (processMessage_normal m m' message pubs Hrun)
    as (_ & _ & _ & _ & _ & _ & _ & Htrades & Hmemo & _).
  set (b0 := default (CircularBuffer_new 100) (_recentTrades m !! symbol message)) in *.
  assert (Hb0 : bufferSize b0 = 100%nat
                ∧ items b0 = recent_trades m (symbol message)).
  { unfold b0, recent_trades.
    destruct (_recentTrades m !! symbol message) as [b|] eqn:Hb; [|done].
    split; [|done]. by destruct (Hm _ _ Hb). }
  destruct Hb0 as [Hsize Hitems].
  destruct (decide (type message = "trade")) as [Ht|Ht].
  - rewrite bool_decide_eq_true_2 in Htrades, Hmemo by done.
    split; [|split].
    + intros s b. rewrite Htrades.
      destruct (decide (symbol message = s)) as [<-|Hne].
      * rewrite lookup_insert_eq. intros [= <-]. split; [done|].
        change (buffer (append b0 (payload message)))
          with (items (append b0 (payload message))).
        rewrite append_items, Hsize. apply last_n_length.
      * rewrite lookup_insert_ne by done. apply Hm.
    + intros Hunset s. unfold serialized_trades. rewrite Hmemo.
      destruct (decide (symbol message = s)) as [<-|Hne].
      * by rewrite lookup_insert_eq.
      * rewrite lookup_insert_ne by done. apply Hunset.
    + intros s. rewrite trades_of_cons. unfold recent_trades at 1. rewrite Htrades.
      destruct (decide (symbol message = s)) as [<-|Hne].
      * rewrite lookup_insert_eq, bool_decide_eq_true_2 by done.
        rewrite append_items, Hsize, Hitems. done.
      * rewrite lookup_insert_ne by done.
        rewrite bool_decide_eq_false_2 by tauto.
        rewrite !app_nil_r. symmetry. apply last_n_short.
        by apply recent_trades_bounded.
  - rewrite bool_decide_eq_false_2 in Htrades, Hmemo by done.
    split; [|split].
    + intros s b. rewrite Htrades. apply Hm.
    + intros Hunset s. unfold serialized_trades. rewrite Hmemo. apply Hunset.
    + intros s. rewrite trades_of_cons, bool_decide_eq_false_2 by tauto.
      rewrite !app_nil_r. unfold recent_trades at 1. rewrite Htrades.
      symmetry. apply last_n_short. by apply recent_trades_bounded.
Qed.

(** Where the worker has taken a sequence of events, its buffers hold the
    last 100 trades of each symbol. *)
Lemma ingest_recent (messages : list MessageEnvelope) :
  ∀ m m' pubs,
    buffers_bounded m →
    ingest m messages = Normal (m', pubs) →
    buffers_bounded m'
    ∧ (memo_unset m → memo_unset m')
    ∧ _marketNames m' = _marketNames m
    ∧ ∀ s, recent_trades m' s
           = last_n 100 (recent_trades m s ++ trades_of s messages).
Proof.
  induction messages as [|message rest IH]; intros m m' pubs Hm Hrun.
  - injection Hrun as <- _. split_and!; try done.
    intros s. unfold trades_of. rewrite filter_nil, app_nil_r.
    symmetry. apply last_n_short. by apply recent_trades_bounded.
  - cbn [ingest] in Hrun.
    destruct (processMessage m message) as [[m1 pubs1]|] eqn:Hrun1; [|done].
    simpl in Hrun.
    destruct (ingest m1 rest) as [[m2 pubs2]|] eqn:Hrun2; [|done].
    simpl in Hrun. injection Hrun as <- _.
    destruct (processMessage_normal m m1 message pubs1 Hrun1) as (_ & _ & Hnames1 & _).
    destruct (processMessage_recent m m1 message pubs1 Hm Hrun1) as (Hm1 & Hmemo1 & Hrecent1).
    destruct (IH m1 m2 pubs2 Hm1 Hrun2) as (Hm2 & Hmemo2 & Hnames2 & Hrecent2).
    split_and!; try done.
    + tauto.
    + congruence.
    + intros s. rewrite Hrecent2, Hrecent1, last_n_app.
      rewrite (trades_of_cons s message rest), (trades_of_cons s message []).
      change (trades_of s []) with (@nil string).
      by rewrite app_nil_r, app_assoc.
Qed.

(** The worker takes every sequence of events none of whose trades has a
    symbol that names a member of [Object.prototype], and asks to publish
    the events whose flag is set. *)
Lemma ingest_returns (messages : list MessageEnvelope) :
  (∀ e, e ∈ messages → type e = "trade" → symbol e ∉ Object_prototype_members) →
  ∀ m, ∃ m', ingest m messages = Normal (m', published messages).
Proof.
  induction messages as [|message rest IH]; intros Hok m.
  - by exists m.
  - destruct (processMessage_returns m message) as (m1 & pubs1 & Hstep).
    { intros Ht _. apply Hok; [set_solver|done]. }
    destruct (processMessage_normal m m1 message pubs1 Hstep) as (-> & _).
    destruct (IH (fun e He => Hok e ltac:(set_solver)) m1) as (m2 & Hrest).
    exists m2. cbn [ingest]. rewrite Hstep. simpl. rewrite Hrest. simpl.
    unfold published. destruct (publish message) eqn:Hp.
    + by rewrite filter_cons_True.
    + rewrite filter_cons_False; [done|]. by rewrite Hp.
Qed.

Lemma Minion_new_bounded (markets : list SerumMarket) :
  buffers_bounded (Minion_new markets) ∧ memo_unset (Minion_new markets).
Proof.
  split.
  - intros s b Hb. simpl in Hb. by rewrite lookup_empty in Hb.
  - intros s. unfold serialized_trades. simpl. by rewrite lookup_empty.
Qed.

Lemma trades_of_trades (s : string) (publish' : bool) (payloads : list string) :
  trades_of s ((fun p => trade s p publish') <$> payloads) = payloads.
Proof.
  induction payloads as [|p rest IH]; [done|].
  rewrite fmap_cons, trades_of_cons, IH.
  by rewrite bool_decide_eq_true_2.
Qed.

(** C5, on the trades of a symbol that names a member of
    [Object.prototype], with what holds of the others. Over every sequence
    of events that a new worker has processed, the buffer of a symbol holds
    at most 100 entries, namely the last 100 trades of the symbol in the
    order they came; where the 150 trades t(1) .. t(150) of a symbol have
    been processed, its buffer reads t(51) .. t(150); and they are processed
    for every symbol that does not name a member of [Object.prototype]. For
    a symbol that does ([constructor], say) the first of them throws: none
    is inserted, and no buffer is made. *)
Theorem recent_trades_last_100 (markets : list SerumMarket) :
  (∀ messages m pubs s,
      ingest (Minion_new markets) messages = Normal (m, pubs) →
      (length (recent_trades m s) ≤ 100)%nat
      ∧ recent_trades m s = last_n 100 (trades_of s messages))
  ∧ (∀ s (t : nat → string) publish' m pubs,
      ingest (Minion_new markets) ((fun i => trade s (t i) publish') <$> seq 1 150)
      = Normal (m, pubs) →
      recent_trades m s = t <$> seq 51 100)
  ∧ (∀ s (t : nat → string) publish',
      s ∉ Object_prototype_members →
      ∃ m pubs,
        ingest (Minion_new markets) ((fun i => trade s (t i) publish') <$> seq 1 150)
        = Normal (m, pubs)
        ∧ recent_trades m s = t <$> seq 51 100)
  ∧ (∀ s (t : nat → string) publish',
      s ∈ Object_prototype_members →
      ingest (Minion_new markets) ((fun i => trade s (t i) publish') <$> seq 1 150)
      = Throws "TypeError: append is not a function").
Proof.
  destruct (Minion_new_bounded markets) as [Hnew _].
  assert (Hlast : ∀ s (t : nat → string) publish' m pubs,
    ingest (Minion_new markets) ((fun i => trade s (t i) publish') <$> seq 1 150)
    = Normal (m, pubs) →
    recent_trades m s = t <$> seq 51 100).
  { intros s t publish' m pubs Hrun.
    destruct (ingest_recent _ _ _ _ Hnew Hrun) as (_ & _ & _ & Hrecent).
    rewrite Hrecent. unfold recent_trades at 1. cbn [Minion_new _recentTrades].
    rewrite lookup_empty, app_nil_l.
    rewrite (list_fmap_compose t (fun p => trade s p publish')), trades_of_trades.
    unfold last_n. rewrite length_fmap, length_seq.
    change (150 - 100)%nat with 50%nat.
    rewrite <- fmap_drop. f_equal. }
  split_and!.
  - intros messages m pubs s Hrun.
    destruct (ingest_recent _ _ _ _ Hnew Hrun) as (Hm & _ & _ & Hrecent).
    split; [by apply recent_trades_bounded|].
    rewrite Hrecent. unfold recent_trades. simpl. by rewrite lookup_empty.
  - exact Hlast.
  - intros s t publish' Hs.
    destruct (ingest_returns ((fun i => trade s (t i) publish') <$> seq 1 150))
      with (m := Minion_new markets) as (m & Hrun).
    { intros e He _. apply list_elem_of_fmap in He as (i & -> & _). exact Hs. }
    exists m, (published ((fun i => trade s (t i) publish') <$> seq 1 150)).
    split; [done|]. by eapply Hlast.
  - intros s t publish' Hs.
    change (seq 1 150) with (1%nat :: seq 2 149). rewrite fmap_cons. cbn [ingest].
    rewrite processMessage_throws; [done|done|done|].
    unfold own. case_bool_decide; [done|apply lookup_empty].
Qed.

Lemma recent_trades_last_100_witness :
  ingest (Minion_new example_markets)
    ((fun i => trade "constructor" (String (Ascii.ascii_of_nat i) EmptyString) false) <$> seq 1 150)
  = Throws "TypeError: append is not a function".
Proof.
  destruct (recent_trades_last_100 example_markets) as (_ & _ & _ & Hthrows).
  apply (Hthrows "constructor" (fun i => String (Ascii.ascii_of_nat i) EmptyString) false).
  apply list_elem_of_In. simpl. tauto.
Defined.

(** ** Control messages *)

Section HandlerFacts.
Context `{Imports}.

Lemma ws_do_ok (c : ws_call) (done : list ws_call) :
  ws_throws done c = false → ws_do c done = (Normal tt, done ++ [c]).
Proof. intros Hc. unfold ws_do. by rewrite Hc. Qed.

Lemma effect_bind_ok {A B : Type} (c : effect A) (k : A → effect B)
    (done done' : list ws_call) (a : A) :
  c done = (Normal a, done') → (c ≫= k) done = k a done'.
Proof. intros Hc. unfold mbind, effect_bind. by rewrite Hc. Qed.

Lemma effect_bind_throws {A B : Type} (c : effect A) (k : A → effect B)
    (done done' : list ws_call) (e : string) :
  c done = (Throws e, done') → (c ≫= k) done = (Throws e, done').
Proof. intros Hc. unfold mbind, effect_bind. by rewrite Hc. Qed.

(** A loop whose body only adds calls adds those of every iteration, in
    order. *)
Lemma for_of_ok {A : Type} (body : A → effect unit) (added : A → list ws_call)
    (l : list A) :
  (∀ x done, body x done = (Normal tt, done ++ added x)) →
  ∀ done, for_of l body done = (Normal tt, done ++ flat_map added l).
Proof.
  intros Hbody. induction l as [|x rest IH]; intros done; simpl.
  - by rewrite app_nil_r.
  - rewrite (effect_bind_ok _ _ _ _ _ (Hbody x done)), IH. by rewrite app_assoc.
Qed.

(** The handler when its [try] block ends normally ... *)
Lemma handler_normal (m : Minion) (now' : Z) (timestamp buffer : string)
    (ws : WebSocket) (done : list ws_call) :
  try_block m (RateLimiter.RateLimit MAX_MESSAGES_PER_SECOND now' (limiter_fields ws)).2
    timestamp buffer (calls ws) = (Normal tt, done) →
  _handleSubscriptionRequest m now' timestamp ws buffer
  = Normal {| limiter_fields :=
                Some (RateLimiter.RateLimit MAX_MESSAGES_PER_SECOND now' (limiter_fields ws)).1;
              calls := done |}.
Proof.
  intros Hbody. unfold _handleSubscriptionRequest, try_catch. by rewrite Hbody.
Qed.

(** ... and when it throws: the [catch] block ends the connection, and an
    exception of [ws.end] itself is swallowed. *)
Lemma handler_caught (m : Minion) (now' : Z) (timestamp buffer : string)
    (ws : WebSocket) (done : list ws_call) (err : string) :
  try_block m (RateLimiter.RateLimit MAX_MESSAGES_PER_SECOND now' (limiter_fields ws)).2
    timestamp buffer (calls ws) = (Throws err, done) →
  _handleSubscriptionRequest m now' timestamp ws buffer
  = Normal {| limiter_fields :=
                Some (RateLimiter.RateLimit MAX_MESSAGES_PER_SECOND now' (limiter_fields ws)).1;
              calls := if ws_throws done (WsEnd 1011 internal_error_message)
                       then done
                       else done ++ [WsEnd 1011 internal_error_message] |}.
Proof.
  intros Hbody. unfold _handleSubscriptionRequest, try_catch, ws_do. rewrite Hbody.
  by destruct (ws_throws done _).
Qed.

Lemma sent_app (l k : list ws_call) : sent (l ++ k) = sent l ++ sent k.
Proof. apply omap_app. Qed.

Lemma sent_replay (m : Minion) (type market : string) :
  sent (WsSubscribe (topic_of type market) :: replay m type market)
  = option_list (cached_snapshot m (type, market)).
Proof.
  unfold replay, cached_snapshot. simpl.
  destruct (snapshot_cache m type) as [cache|]; [|done].
  by destruct (cache !! market).
Qed.

(** The messages pushed by the loops: the cached snapshot of every requested
    pair that has one, in the order of the pairs. *)
Lemma sent_loops (m : Minion) (types markets : list string) :
  sent (flat_map (fun type =>
          flat_map (fun market =>
            WsSubscribe (topic_of type market) :: replay m type market) markets) types)
  = omap (cached_snapshot m) (requested_pairs types markets).
Proof.
  unfold requested_pairs.
  induction types as [|type types IH]; [done|].
  cbn [flat_map]. rewrite sent_app, omap_app, IH. f_equal.
  clear IH. induction markets as [|market markets IH]; [done|].
  cbn [flat_map]. rewrite sent_app, sent_replay, IH, fmap_cons.
  cbn [omap list_omap]. by destruct (cached_snapshot m (type, market)).
Qed.

Lemma occurrences_app `{EqDecision A} (x : A) (l k : list A) :
  occurrences x (l ++ k) = (occurrences x l + occurrences x k)%nat.
Proof. unfold occurrences. by rewrite filter_app, length_app. Qed.

Lemma occurrences_cons `{EqDecision A} (x y : A) (l : list A) :
  occurrences x (y :: l)
  = ((if bool_decide (y = x) then 1 else 0) + occurrences x l)%nat.
Proof.
  unfold occurrences. case_bool_decide.
  - by rewrite filter_cons_True.
  - by rewrite filter_cons_False.
Qed.

(** A pair is requested as often as its type occurs among the types times
    its market among the markets. *)
Lemma occurrences_requested (type market : string) (types markets : list string) :
  occurrences (type, market) (requested_pairs types markets)
  = (occurrences type types * occurrences market markets)%nat.
Proof.
  unfold requested_pairs.
  induction types as [|type' types IH]; [done|].
  cbn [flat_map]. rewrite occurrences_app, IH, (occurrences_cons type type').
  rewrite Nat.mul_add_distr_r. f_equal. clear IH.
  induction markets as [|market' markets IH]; [by rewrite Nat.mul_0_r|].
  rewrite fmap_cons, !occurrences_cons, IH.
  destruct (decide (type' = type)) as [->|Hty].
  - rewrite (bool_decide_eq_true_2 (type = type)) by done.
    destruct (decide (market' = market)) as [->|Hmk].
    + rewrite !bool_decide_eq_true_2 by done. lia.
    + rewrite !bool_decide_eq_false_2 by congruence. lia.
  - rewrite (bool_decide_eq_false_2 (type' = type)) by done.
    rewrite bool_decide_eq_false_2 by congruence. lia.
Qed.

Lemma occurrences_omap {A B : Type} `{EqDecision A} `{EqDecision B}
    (f : A → option B) (x : A) (y : B) (l : list A) :
  f x = Some y → (occurrences x l ≤ occurrences y (omap f l))%nat.
Proof.
  intros Hx. induction l as [|a l IH]; [done|].
  rewrite occurrences_cons. cbn [omap list_omap].
  case_bool_decide as Ha.
  - subst a. rewrite Hx, occurrences_cons, bool_decide_eq_true_2 by done. lia.
  - destruct (f a); [rewrite occurrences_cons|]; lia.
Qed.

Section OpenConnection.
Hypothesis ws_open : ∀ done c, ws_throws done c = false.

Lemma replay_ok (m : Minion) (type market : string) (done : list ws_call) :
  (_ ← (if bool_decide (type = "quote")
        then match _quotesSerialized m !! market with
             | Some quote => ws_do (WsSend quote)
             | None => mret tt
             end
        else mret tt);
   _ ← (if bool_decide (type = "l2snapshot")
        then match _l2SnapshotsSerialized m !! market with
             | Some l2Snapshot => ws_do (WsSend l2Snapshot)
             | None => mret tt
             end
        else mret tt);
   (if bool_decide (type = "l3snapshot")
    then match _l3SnapshotsSerialized m !! market with
         | Some l3Snapshot => ws_do (WsSend l3Snapshot)
         | None => mret tt
         end
    else mret tt)) done
  = (Normal tt, done ++ replay m type market).
Proof.
  unfold replay, snapshot_cache, mbind, effect_bind, mret, effect_ret, ws_do.
  destruct (decide (type = "quote")) as [->|Hq].
  { simpl. destruct (_quotesSerialized m !! market); simpl;
      rewrite ?ws_open; simpl; by rewrite ?app_nil_r. }
  rewrite (bool_decide_eq_false_2 (type = "quote")) by done.
  destruct (decide (type = "l2snapshot")) as [->|Hl2].
  { simpl. destruct (_l2SnapshotsSerialized m !! market); simpl;
      rewrite ?ws_open; simpl; by rewrite ?app_nil_r. }
  rewrite (bool_decide_eq_false_2 (type = "l2snapshot")) by done.
  destruct (decide (type = "l3snapshot")) as [->|Hl3].
  { simpl. destruct (_l3SnapshotsSerialized m !! market); simpl;
      rewrite ?ws_open; simpl; by rewrite ?app_nil_r. }
  rewrite (bool_decide_eq_false_2 (type = "l3snapshot")) by done.
  by rewrite app_nil_r.
Qed.

Lemma subscribe_market_ok (m : Minion) (type market : string) (done : list ws_call) :
  subscribe_market m "subscribe" type market done
  = (Normal tt, done ++ WsSubscribe (topic_of type market) :: replay m type market).
Proof.
  unfold subscribe_market. rewrite bool_decide_eq_true_2 by done.
  rewrite (effect_bind_ok _ _ _ _ _ (ws_do_ok _ done (ws_open _ _))).
  rewrite replay_ok. by rewrite <- app_assoc.
Qed.

(** A valid subscription on an open connection: the confirmation, then for
    every requested pair the subscription to its topic and its replay. *)
Lemma try_block_subscribe (m : Minion) (timestamp buffer channel : string)
    (markets types : list string) (done : list ws_call) :
  _validateRequestPayload m buffer = Normal (Valid "subscribe" channel markets) →
  MESSAGE_TYPES_PER_CHANNEL !! channel = Some types →
  try_block m false timestamp buffer done
  = (Normal tt,
     done ++ WsSend (JSON_stringify (SuccessResponse "subscribed" channel markets timestamp))
          :: flat_map (fun type =>
               flat_map (fun market =>
                 WsSubscribe (topic_of type market) :: replay m type market) markets)
               types).
Proof.
  intros Hvalid Htypes. unfold try_block.
  rewrite (effect_bind_ok _ _ done done (Valid "subscribe" channel markets))
    by (unfold lift; by rewrite Hvalid).
  rewrite bool_decide_eq_true_2 by done.
  rewrite (effect_bind_ok _ _ _ _ _ (ws_do_ok _ done (ws_open _ _))).
  rewrite (effect_bind_ok _ _ _ (done ++ [WsSend (JSON_stringify
             (SuccessResponse "subscribed" channel markets timestamp))]) types)
    by (unfold lift; by rewrite Htypes).
  rewrite (for_of_ok _ (fun type => flat_map (fun market =>
             WsSubscribe (topic_of type market) :: replay m type market) markets)).
  - by rewrite <- app_assoc.
  - intros type done'. apply for_of_ok. intros market done''.
    apply subscribe_market_ok.
Qed.



End OpenConnection.
End HandlerFacts.



(** ** The validator and the errors of a control message *)

Section ControlErrors.
Context `{Imports}.

Lemma find_first {A : Type} (f : A → bool) (good rest : list A) (bad : A) :
  (∀ x, x ∈ good → f x = false) → f bad = true →
  find f (good ++ bad :: rest) = Some bad.
Proof.
  intros Hgood Hbad. induction good as [|x good IH]; simpl.
  - by rewrite Hbad.
  - rewrite (Hgood x) by set_solver. apply IH. intros y Hy. apply Hgood. set_solver.
Qed.

Lemma find_none {A : Type} (f : A → bool) (l : list A) :
  (∀ x, x ∈ l → f x = false) → find f l = None.
Proof.
  intros Hl. induction l as [|x l IH]; simpl; [done|].
  rewrite (Hl x) by set_solver. apply IH. intros y Hy. apply Hl. set_solver.
Qed.

(** On every payload but [null], the checks of the validator come in the
    order of the specification, the first that fails deciding the error:
    the parse, the op, the channel, the markets array, its length, its
    entries (the first that is no market of the registry is named). The
    error is returned when its text can be built, that is when the value it
    names converts to a string; the validator throws when it does not. *)
Lemma validate_checks_in_order (m : Minion) (message : string) :
  (JSON_parse message = None →
     _validateRequestPayload m message = Normal (Invalid "Invalid JSON."))
  ∧ (∀ payload op channel markets,
       JSON_parse message = Some payload →
       get payload "op" = Normal op →
       get payload "channel" = Normal channel →
       get payload "markets" = Normal markets →
       (includes OPS op = false → throws_in_template op = false →
          _validateRequestPayload m message = Normal (Invalid (invalid_op_message op)))
       ∧ (includes OPS op = true → includes CHANNELS channel = false →
          throws_in_template channel = false →
            _validateRequestPayload m message
            = Normal (Invalid (invalid_channel_message channel)))
       ∧ (includes OPS op = true → includes CHANNELS channel = true →
            (∀ entries, markets = Some (JArray entries) → entries = []) →
            _validateRequestPayload m message
            = Normal (Invalid "Invalid or empty markets array provided."))
       ∧ (∀ entries,
            includes OPS op = true → includes CHANNELS channel = true →
            markets = Some (JArray entries) → (40 < length entries)%nat →
            _validateRequestPayload m message
            = Normal (Invalid "Too large markets array provided (> 40 items)."))
       ∧ (∀ good bad rest,
            includes OPS op = true → includes CHANNELS channel = true →
            markets = Some (JArray (good ++ bad :: rest)) →
            (length (good ++ bad :: rest) ≤ 40)%nat →
            (∀ entry, entry ∈ good → includes (_marketNames m) (Some entry) = true) →
            includes (_marketNames m) (Some bad) = false →
            unprintable bad = false →
            _validateRequestPayload m message
            = Normal (Invalid (invalid_market_message (_marketNames m) (Some bad))))
       ∧ (∀ entries,
            includes OPS op = true → includes CHANNELS channel = true →
            markets = Some (JArray entries) →
            (0 < length entries ≤ 40)%nat →
            (∀ entry, entry ∈ entries → includes (_marketNames m) (Some entry) = true) →
            _validateRequestPayload m message
            = Normal (Valid (as_string op) (as_string channel)
                        ((fun entry => as_string (Some entry)) <$> entries)))
       ∧ (includes OPS op = false → throws_in_template op = true →
          _validateRequestPayload m message
          = Throws "TypeError: Cannot convert object to primitive value")
       ∧ (includes OPS op = true → includes CHANNELS channel = false →
          throws_in_template channel = true →
          _validateRequestPayload m message
          = Throws "TypeError: Cannot convert object to primitive value")
       ∧ (∀ good bad rest,
            includes OPS op = true → includes CHANNELS channel = true →
            markets = Some (JArray (good ++ bad :: rest)) →
            (length (good ++ bad :: rest) ≤ 40)%nat →
            (∀ entry, entry ∈ good → includes (_marketNames m) (Some entry) = true) →
            includes (_marketNames m) (Some bad) = false →
            unprintable bad = true →
            _validateRequestPayload m message
            = Throws "TypeError: Cannot convert object to primitive value")).
Proof.
  unfold _validateRequestPayload. split.
  - by intros ->.
  - intros payload op channel markets -> Hop Hchannel Hmarkets.
    rewrite Hop, Hchannel, Hmarkets. unfold mbind, completion_bind, template_literal.
    split_and!.
    + by intros -> ->.
    + by intros -> -> ->.
    + intros -> -> Hempty. cbn [negb].
      destruct markets as [[| | | |entries|]|]; try done.
      by rewrite (Hempty entries eq_refl).
    + intros entries -> -> -> Hlen. cbn [negb].
      rewrite bool_decide_eq_false_2 by (intros Hz; rewrite Hz in Hlen; lia).
      by rewrite bool_decide_eq_true_2.
    + intros good bad rest -> -> -> Hlen Hgood Hbad Hprint. cbn [negb].
      rewrite bool_decide_eq_false_2 by (rewrite length_app; simpl; lia).
      rewrite bool_decide_eq_false_2 by lia.
      rewrite (find_first _ good rest bad); [|intros x Hx; by rewrite (Hgood x Hx)
                                             |by rewrite Hbad].
      cbn [throws_in_template]. by rewrite Hprint.
    + intros entries -> -> -> Hlen Hall. cbn [negb].
      rewrite bool_decide_eq_false_2 by lia.
      rewrite bool_decide_eq_false_2 by lia.
      rewrite find_none; [done|]. intros x Hx. by rewrite (Hall x Hx).
    + by intros -> ->.
    + by intros -> -> ->.
    + intros good bad rest -> -> -> Hlen Hgood Hbad Hprint. cbn [negb].
      rewrite bool_decide_eq_false_2 by (rewrite length_app; simpl; lia).
      rewrite bool_decide_eq_false_2 by lia.
      rewrite (find_first _ good rest bad); [|intros x Hx; by rewrite (Hgood x Hx)
                                             |by rewrite Hbad].
      cbn [throws_in_template]. by rewrite Hprint.
Qed.

(** C2, on the payload [null]. [JSON.parse] returns [null] for the message
    [null]; reading its [op] throws, so the validator gives no validation
    error: it throws, and the handler that called it ends the connection
    with code 1011. *)
Theorem validate_null_throws (m : Minion) (now' : Z) (timestamp message : string)
    (ws : WebSocket) :
  JSON_parse message = Some JNull →
  (RateLimiter.RateLimit MAX_MESSAGES_PER_SECOND now' (limiter_fields ws)).2 = false →
  ws_throws (calls ws) (WsEnd 1011 internal_error_message) = false →
  _validateRequestPayload m message
  = Throws "TypeError: Cannot read properties of null"
  ∧ ∃ fields,
      _handleSubscriptionRequest m now' timestamp ws message
      = Normal {| limiter_fields := Some fields;
                  calls := calls ws ++ [WsEnd 1011 internal_error_message] |}.
Proof.
  intros Hparse Hlimit Hend.
  assert (Hthrows : _validateRequestPayload m message
                    = Throws "TypeError: Cannot read properties of null").
  { unfold _validateRequestPayload. by rewrite Hparse. }
  split; [done|]. eexists.
  rewrite (handler_caught m now' timestamp message ws (calls ws)
             "TypeError: Cannot read properties of null").
  - by rewrite Hend.
  - rewrite Hlimit. unfold try_block, mbind, effect_bind, lift. by rewrite Hthrows.
Qed.

(** C9, on the message [null] and on a message whose op cannot be put in an
    error text. The handler always ends normally: nothing it runs into
    reaches its caller. A message over the rate limit, and a message for
    which the validator returns an error, are answered by one message on the
    connection, the JSON of the object with [type] "error", the error text
    as [message] and the timestamp, and the connection is not ended. An
    exception thrown anywhere in the [try] block makes the handler end the
    connection with code 1011 and the generic message, after the calls
    already made (and if ending throws too, that is swallowed). The
    validator returns no error for the two invalid messages named above: it
    throws, so these get no error message and the connection is ended with
    code 1011. *)
Theorem control_message_errors (m : Minion) (now' : Z) (timestamp buffer : string)
    (ws : WebSocket) :
  let limited := RateLimiter.RateLimit 50 now' (limiter_fields ws) in
  let error_message text :=
    WsSend (JSON_stringify
              (JObject [("type", JString "error"); ("message", JString text);
                        ("timestamp", JString timestamp)])) in
  let internal_error := WsEnd 1011 "Subscription request internal error" in
  (∃ ws', _handleSubscriptionRequest m now' timestamp ws buffer = Normal ws')
  ∧ (limited.2 = true →
     ws_throws (calls ws)
       (error_message
          "Too many requests, slow down. Current limit: 50 messages per second.")
     = false →
     _handleSubscriptionRequest m now' timestamp ws buffer
     = Normal {| limiter_fields := Some limited.1;
                 calls := calls ws
                   ++ [error_message
                         "Too many requests, slow down. Current limit: 50 messages per second."] |})
  ∧ (∀ error,
       limited.2 = false →
       _validateRequestPayload m buffer = Normal (Invalid error) →
       ws_throws (calls ws) (error_message error) = false →
       _handleSubscriptionRequest m now' timestamp ws buffer
       = Normal {| limiter_fields := Some limited.1;
                   calls := calls ws ++ [error_message error] |})
  ∧ (∀ err made,
       try_block m limited.2 timestamp buffer (calls ws) = (Throws err, made) →
       _handleSubscriptionRequest m now' timestamp ws buffer
       = Normal {| limiter_fields := Some limited.1;
                   calls := if ws_throws made internal_error
                            then made else made ++ [internal_error] |})
  ∧ (limited.2 = false →
     JSON_parse buffer = Some JNull
     ∨ (∃ payload op,
          JSON_parse buffer = Some payload
          ∧ get payload "op" = Normal op
          ∧ includes OPS op = false
          ∧ throws_in_template op = true) →
     _handleSubscriptionRequest m now' timestamp ws buffer
     = Normal {| limiter_fields := Some limited.1;
                 calls := if ws_throws (calls ws) internal_error
                          then calls ws else calls ws ++ [internal_error] |}).
Proof.
  intros limited error_message internal_error.
  change 50 with MAX_MESSAGES_PER_SECOND in limited. split_and!.
  - destruct (try_block m limited.2 timestamp buffer (calls ws)) as [[[]|err] made] eqn:Hbody.
    + eexists. by apply handler_normal.
    + eexists. by apply (handler_caught _ _ _ _ _ made err).
  - intros Hlimit Hsend. apply handler_normal. fold limited. rewrite Hlimit.
    unfold try_block. by apply ws_do_ok.
  - intros error Hlimit Hinvalid Hsend. apply handler_normal. fold limited.
    rewrite Hlimit. unfold try_block.
    rewrite (effect_bind_ok _ _ (calls ws) (calls ws) (Invalid error))
      by (unfold lift; by rewrite Hinvalid).
    by apply ws_do_ok.
  - intros err made Hbody. by apply (handler_caught _ _ _ _ _ made err).
  - intros Hlimit Hinvalid.
    assert (Hthrows : ∃ err, _validateRequestPayload m buffer = Throws err).
    { unfold _validateRequestPayload.
      destruct Hinvalid as [Hparse|(payload & op & Hparse & Hop & Hiop & Hprint)].
      - rewrite Hparse. by eexists.
      - rewrite Hparse, Hop. unfold mbind, completion_bind, template_literal.
        rewrite Hiop, Hprint. by eexists. }
    destruct Hthrows as [err Hthrows].
    apply (handler_caught m now' timestamp buffer ws (calls ws) err).
    fold limited. rewrite Hlimit.
    unfold try_block, mbind, effect_bind, lift. by rewrite Hthrows.
Qed.

End ControlErrors.

Lemma validate_null_throws_witness :
  @_validateRequestPayload example_imports example_worker "null"
  = Throws "TypeError: Cannot read properties of null"
  ∧ ∃ fields,
      @_handleSubscriptionRequest example_imports example_worker 0 example_time
        example_ws "null"
      = Normal {| limiter_fields := Some fields;
                  calls := [WsEnd 1011 internal_error_message] |}.
Proof.
  apply (@validate_null_throws example_imports example_worker 0 example_time
           "null" example_ws); reflexivity.
Defined.

Lemma control_message_errors_witness :
  ∃ fields,
    @_handleSubscriptionRequest example_imports example_worker 0 example_time
      example_ws "null"
    = Normal {| limiter_fields := Some fields;
                calls := [WsEnd 1011 "Subscription request internal error"] |}.
Proof.
  destruct (@control_message_errors example_imports example_worker 0 example_time
              "null" example_ws) as (_ & _ & _ & _ & Hnull).
  eexists. rewrite Hnull; [reflexivity|reflexivity|left; reflexivity].
Defined.

(** ** The HTTP endpoints *)

Section HttpFacts.
Context `{Imports}.

Lemma respond_open (body : string) (res : HttpResponse) :
  discarded res = false → aborted res = false →
  respond body res
  = Normal {| discarded := false; onAborted := onAborted res; aborted := false;
              written := written res
                ++ [ResWriteHeader "content-type" "application/json"; ResEnd body] |}.
Proof.
  intros Hd Ha. unfold respond, res_do. rewrite Ha, Hd. simpl.
  by rewrite <- app_assoc.
Qed.

Lemma respond_aborted (body : string) (res : HttpResponse) :
  aborted res = true → respond body res = Normal res.
Proof. intros Ha. unfold respond. by rewrite Ha. Qed.

(** [_listRecentTrades] on a request that has just arrived. *)
Lemma listRecentTrades_arrived (m : Minion) (parameter marketName : string) :
  decodeURIComponent parameter = Some marketName →
  _listRecentTrades m HttpResponse_new parameter
  = Normal (m,
      {| discarded := false; onAborted := true; aborted := false;
         written :=
           if bool_decide (marketName ∈ _marketNames m)
           then [ResWriteHeader "content-type" "application/json";
                 ResEnd (match serialized_trades m marketName with
                         | Some serialized => serialized
                         | None => "[" +:+ join "," (recent_trades m marketName) +:+ "]"
                         end)]
           else [ResWriteHeader "content-type" "application/json";
                 ResWriteStatus "400";
                 ResEnd (JSON_stringify
                           (JObject [("error",
                              JString (invalid_market_message (_marketNames m)
                                         (Some (JString marketName))))]))] |}).
Proof.
  intros Hdecode. unfold _listRecentTrades, _validateMarketName. rewrite Hdecode.
  case_bool_decide as Hname; cbn [negb isValid error default].
  - by rewrite respond_open.
  - done.
Qed.

(** C7, on a name that is not in the registry, with the answers to the
    names that are. On a worker that has processed any sequence of events
    (none of whose trades has a symbol that names a member of
    [Object.prototype]: the worker processes every such sequence), a
    request for the recent trades of a market (the decoded path parameter):
    for a name of the registry the handler writes the content type and the
    array of the last (at most 100) trades of the symbol, in order, which is
    [[]] when the symbol has had no trade. For a name that is not in the
    registry it writes the content type, then the status 400, then the JSON
    object holding the error: the status comes after the first header, so
    the status line of the response is 200 OK, not 400. *)
Theorem listRecentTrades_response (markets : list SerumMarket)
    (messages : list MessageEnvelope) (parameter marketName : string) :
  decodeURIComponent parameter = Some marketName →
  (∀ e, e ∈ messages → type e = "trade" → symbol e ∉ Object_prototype_members) →
  ∃ m pubs,
    ingest (Minion_new markets) messages = Normal (m, pubs)
    ∧ (marketName ∉ name <$> markets →
       ∃ res,
         _listRecentTrades m HttpResponse_new parameter = Normal (m, res)
         ∧ written res
           = [ResWriteHeader "content-type" "application/json";
              ResWriteStatus "400";
              ResEnd (JSON_stringify
                        (JObject [("error",
                           JString (invalid_market_message (name <$> markets)
                                      (Some (JString marketName))))]))]
         ∧ status_line (written res) = Some "200 OK")
    ∧ (marketName ∈ name <$> markets →
       ∃ res,
         _listRecentTrades m HttpResponse_new parameter = Normal (m, res)
         ∧ written res
           = [ResWriteHeader "content-type" "application/json";
              ResEnd ("[" +:+ join "," (last_n 100 (trades_of marketName messages))
                          +:+ "]")]
         ∧ status_line (written res) = Some "200 OK")
    ∧ (marketName ∈ name <$> markets → trades_of marketName messages = [] →
       ∃ res,
         _listRecentTrades m HttpResponse_new parameter = Normal (m, res)
         ∧ written res
           = [ResWriteHeader "content-type" "application/json"; ResEnd "[]"]).
Proof.
  intros Hdecode Hsymbols.
  destruct (Minion_new_bounded markets) as [Hbounded Hunset].
  destruct (ingest_returns messages Hsymbols (Minion_new markets)) as (m & Hrun).
  destruct (ingest_recent messages _ _ _ Hbounded Hrun)
    as (_ & Hmemo & Hnames & Hrecent).
  exists m, (published messages). split; [done|].
  rewrite (listRecentTrades_arrived m parameter marketName Hdecode).
  rewrite Hnames, (Hmemo Hunset marketName), Hrecent.
  change (_marketNames (Minion_new markets)) with (name <$> markets).
  assert (Hnone : recent_trades (Minion_new markets) marketName = []).
  { unfold recent_trades. simpl. by rewrite lookup_empty. }
  rewrite Hnone, app_nil_l. split_and!.
  - intros Hname. rewrite bool_decide_eq_false_2 by done. by eexists.
  - intros Hname. rewrite bool_decide_eq_true_2 by done. by eexists.
  - intros Hname ->. rewrite bool_decide_eq_true_2 by done. by eexists.
Qed.

(** C8, on a trade followed by a read. The trade unsets the serialized form
    of its symbol; the read that follows answers from the buffer and leaves
    the worker as it was: the serialized form is unset after it as before, no
    read ever stores one. *)
Theorem recent_trades_memo_stays_unset (m m1 m2 : Minion) (message : MessageEnvelope)
    (pubs : list publication) (res res2 : HttpResponse) (parameter : string) :
  type message = "trade" →
  processMessage m message = Normal (m1, pubs) →
  decodeURIComponent parameter = Some (symbol message) →
  _listRecentTrades m1 res parameter = Normal (m2, res2) →
  serialized_trades m1 (symbol message) = None
  ∧ m2 = m1
  ∧ serialized_trades m2 (symbol message) = None.
Proof.
  intros Htype Hrun Hdecode Hread.
  destruct (processMessage_normal m m1 message pubs Hrun)
    as (_ & _ & _ & _ & _ & _ & _ & _ & Hmemo & _).
  rewrite bool_decide_eq_true_2 in Hmemo by done.
  assert (Hunset : serialized_trades m1 (symbol message) = None).
  { unfold serialized_trades. by rewrite Hmemo, lookup_insert_eq. }
  assert (Hsame : m2 = m1).
  { unfold _listRecentTrades in Hread. rewrite Hdecode in Hread.
    destruct (negb (isValid (_validateMarketName m1 (symbol message)))).
    - destruct (res_do _ _) as [r1|] in Hread; [|done]. simpl in Hread.
      destruct (res_do _ r1) as [r2|] in Hread; [|done]. simpl in Hread.
      destruct (res_do _ r2) as [r3|] in Hread; [|done]. simpl in Hread.
      by injection Hread as <- _.
    - destruct (respond _ _) as [r1|] in Hread; [|done]. simpl in Hread.
      by injection Hread as <- _. }
  split; [done|]. split; [done|]. by rewrite Hsame.
Qed.

(** The 400 answer of [_listRecentTrades] is written without a look at
    [res.aborted]: on a response the client had left it would reach for the
    discarded object. The handler has no [await], so it is never run on
    one ([request_inv] at [Arrived]). *)
Remark listRecentTrades_unguarded_answer (m : Minion) (res : HttpResponse)
    (parameter marketName : string) :
  decodeURIComponent parameter = Some marketName →
  marketName ∉ _marketNames m →
  discarded res = true →
  _listRecentTrades m res parameter = Throws discarded_access.
Proof.
  intros Hdecode Hname Hleft. unfold _listRecentTrades, _validateMarketName.
  rewrite Hdecode, bool_decide_eq_false_2 by done. cbn [negb isValid].
  unfold res_do, res_onAborted. cbn [discarded]. by rewrite Hleft.
Qed.

Lemma handle_inv (e : endpoint) (r : request) :
  at_stage r = Arrived → request_inv r → request_inv (handle e r).
Proof.
  unfold request_inv at 1. intros -> Hres. unfold handle. rewrite Hres.
  destruct e as [|parameter].
  - unfold _listMarkets. destruct (_cachedListMarketsResponse (worker r)) as [cached|].
    + rewrite respond_open by done. simpl. by intros ?.
    + simpl. done.
  - unfold _listRecentTrades.
    destruct (decodeURIComponent parameter) as [marketName|].
    + destruct (negb (isValid (_validateMarketName (worker r) marketName))).
      * simpl. by intros ?.
      * rewrite respond_open by done. simpl. by intros ?.
    + simpl. split; [done|]. by intros ?.
Qed.

Lemma resume_inv (r : request) (loaded : option json) :
  at_stage r = AwaitingMarkets → request_inv r → request_inv (resume r loaded).
Proof.
  unfold request_inv at 1. intros -> (Hcallback & Hwritten & Hflag).
  unfold resume, _listMarkets_resumed. destruct loaded as [markets|].
  - destruct (aborted (response r)) eqn:Ha.
    + rewrite respond_aborted by done. simpl. by intros _.
    + rewrite respond_open by congruence. simpl. by intros ?.
  - simpl. split; [done|]. by intros _.
Qed.

Lemma step_inv (e : endpoint) (r r' : request) :
  step e r r' → request_inv r → request_inv r'.
Proof.
  intros Hstep Hr. destruct Hstep as [r Hstage|r Hstage|r m Hstage|r loaded Hstage].
  - by apply handle_inv.
  - unfold request_inv in *. rewrite Hstage in Hr. destruct Hr as (Hcallback & Hwritten & _).
    simpl. by rewrite Hcallback.
  - unfold request_inv in *. by rewrite Hstage in Hr.
  - by apply resume_inv.
Qed.

(** C6. Whatever the endpoint, the worker and the course of the request (the
    client may leave while the handler is suspended, other handlers may run
    meanwhile, the awaited load may succeed or fail): nothing is ever written
    on a response that the client has left, and the handler never fails for
    having reached for the discarded response. *)
Theorem aborted_request_is_not_written (e : endpoint) (m : Minion) (r : request) :
  rtc (step e) (arrival m) r →
  (discarded (response r) = true → written (response r) = [])
  ∧ at_stage r ≠ Rejected discarded_access.
Proof.
  intros Hrun.
  assert (Hinv : request_inv r).
  { revert r Hrun. apply rtc_ind_r; [done|].
    intros r r' _ Hstep Hr. by eapply step_inv. }
  unfold request_inv in Hinv. destruct (at_stage r) as [| | |err] eqn:Hstage.
  - rewrite Hinv. done.
  - destruct Hinv as (_ & Hwritten & _). done.
  - done.
  - destruct Hinv as [Herr Hleft]. split; [done|]. congruence.
Qed.

End HttpFacts.

Lemma listRecentTrades_response_witness :
  ∃ m pubs res,
    ingest (Minion_new example_markets) [example_quote] = Normal (m, pubs)
    ∧ @_listRecentTrades example_imports m HttpResponse_new "UNKNOWN" = Normal (m, res)
    ∧ status_line (written res) = Some "200 OK".
Proof.
  destruct (@listRecentTrades_response example_imports example_markets
              [example_quote] "UNKNOWN" "UNKNOWN" eq_refl)
    as (m & pubs & Hrun & Hunknown & _ & _).
  { intros e He Ht. apply list_elem_of_singleton in He. by subst e. }
  assert (Hname : "UNKNOWN" ∉ name <$> example_markets).
  { apply (bool_decide_eq_false_1 _). vm_compute. reflexivity. }
  destruct (Hunknown Hname) as (res & Hres & _ & Hstatus).
  exists m, pubs, res. split; [exact Hrun|]. split; [exact Hres|exact Hstatus].
Defined.

Lemma recent_trades_memo_stays_unset_witness :
  ∃ m1 m2 pubs res2,
    processMessage (Minion_new example_markets) (trade "BTC/USDT" "trade-1" true)
    = Normal (m1, pubs)
    ∧ @_listRecentTrades example_imports m1 HttpResponse_new "BTC/USDT"
      = Normal (m2, res2)
    ∧ written res2
      = [ResWriteHeader "content-type" "application/json"; ResEnd "[trade-1]"]
    ∧ serialized_trades m2 "BTC/USDT" = None.
Proof.
  do 4 eexists. split; [reflexivity|]. split; [reflexivity|]. split; [reflexivity|].
  eapply (@recent_trades_memo_stays_unset example_imports
            (Minion_new example_markets) _ _ (trade "BTC/USDT" "trade-1" true)
            _ HttpResponse_new _ "BTC/USDT"); reflexivity.
Defined.

Lemma aborted_request_is_not_written_witness :
  discarded (response example_aborted_request) = true
  ∧ written (response example_aborted_request) = []
  ∧ at_stage example_aborted_request = Returned.
Proof.
  split; [reflexivity|]. split; [|reflexivity].
  apply (@aborted_request_is_not_written example_imports GetMarkets
           (Minion_new example_markets) example_aborted_request);
    [|reflexivity].
  eapply rtc_l; [apply step_handle; reflexivity|].
  eapply rtc_l; [apply step_abort; reflexivity|].
  eapply rtc_l; [apply (step_resume _ _ (Some (JArray []))); reflexivity|].
  apply rtc_refl.
Defined.

(** ** The errors of a control message, run *)

(** The 51st message of a connection in one window is answered by the error
    of the rate limiter, and the connection is left open. *)
Example rate_limited_message_is_answered :
  @_handleSubscriptionRequest example_imports example_worker 0 example_time
    {| limiter_fields := Some {| RateLimiter.last := 0; RateLimiter.count := 50 |};
       calls := [] |}
    (stringify subscribe_twice)
  = Normal {| limiter_fields := Some {| RateLimiter.last := 0; RateLimiter.count := 51 |};
              calls := [WsSend (stringify (ErrorResponse rate_limit_message example_time))] |}.
Proof. vm_compute. reflexivity. Qed.

(** A message that is no JSON is answered by the error of the validator. *)
Example invalid_json_is_answered :
  @_handleSubscriptionRequest example_imports example_worker 0 example_time
    example_ws "subscribe"
  = Normal {| limiter_fields := Some {| RateLimiter.last := 0; RateLimiter.count := 1 |};
              calls := [WsSend (stringify (ErrorResponse "Invalid JSON." example_time))] |}.
Proof. vm_compute. reflexivity. Qed.

(** * Further properties of the worker *)

(** ** The rate limiter: connections do not count against each other *)

Lemma verdicts_own_length (limit w : Z) (c : nat) (evs : list RateLimiter.event) :
  ∀ l l', RateLimiter.now l = RateLimiter.now l' →
    length (RateLimiter.verdicts w c (RateLimiter.run limit l evs))
    = length (RateLimiter.verdicts w c (RateLimiter.run limit l' (own_events c evs))).
Proof.
  unfold own_events.
  induction evs as [|[|ws] evs IH]; intros l l' Hnow; [done| |].
  - rewrite filter_cons_True by done. cbn [RateLimiter.run].
    apply IH. simpl. by rewrite Hnow.
  - cbn [RateLimiter.run]. cbv zeta.
    destruct (decide (ws = c)) as [->|Hne].
    + rewrite filter_cons_True by (simpl; by rewrite bool_decide_eq_true_2).
      cbn [RateLimiter.run]. cbv zeta. unfold RateLimiter.verdicts.
      destruct (decide (RateLimiter.now l = w)) as [Hw|Hw].
      * rewrite !filter_cons_True
          by (unfold RateLimiter.here; simpl;
              rewrite !bool_decide_eq_true_2; [done..|congruence]).
        rewrite !fmap_cons. cbn [length]. f_equal.
        apply (IH (RateLimiter.call limit l c).1 (RateLimiter.call limit l' c).1).
        done.
      * rewrite !filter_cons_False
          by (unfold RateLimiter.here; simpl;
              rewrite (bool_decide_eq_false_2 (_ = w)); [done|congruence]).
        apply (IH (RateLimiter.call limit l c).1 (RateLimiter.call limit l' c).1).
        done.
    + rewrite filter_cons_False by (simpl; by rewrite bool_decide_eq_false_2).
      unfold RateLimiter.verdicts at 1. rewrite filter_cons_False.
      2:{ unfold RateLimiter.here. simpl.
          rewrite (bool_decide_eq_false_2 (ws = c)) by done.
          by rewrite andb_false_r. }
      apply (IH (RateLimiter.call limit l ws).1 l'). done.
Qed.

(** X1. The verdicts on the calls of a connection are those it would get if
    it were the only connection: the calls of the other connections,
    accepted or rejected, change nothing for it. *)
Theorem RateLimit_connections_independent (limit w : Z) (c : nat)
    (evs : list RateLimiter.event) :
  RateLimiter.verdicts w c (RateLimiter.run limit RateLimiter.init evs)
  = RateLimiter.verdicts w c
      (RateLimiter.run limit RateLimiter.init (own_events c evs)).
Proof.
  rewrite (verdicts_from_init limit w c evs),
    (verdicts_from_init limit w c (own_events c evs)).
  by rewrite (verdicts_own_length limit w c evs RateLimiter.init RateLimiter.init).
Qed.

(** ** Sequences of data events *)

Lemma latest_cons (type' symbol' : string) (message : MessageEnvelope)
    (rest : list MessageEnvelope) :
  latest type' symbol' (message :: rest)
  = match latest type' symbol' rest with
    | Some p => Some p
    | None =>
        if bool_decide (type message = type' ∧ symbol message = symbol')
        then Some (payload message) else None
    end.
Proof.
  unfold latest. case_bool_decide as Hm.
  - rewrite filter_cons_True by done. rewrite fmap_cons.
    destruct (payload <$> filter _ rest) as [|p ps] eqn:Hrest; [done|].
    rewrite last_cons. by destruct (last (p :: ps)).
  - rewrite filter_cons_False by done. by destruct (last _).
Qed.

Lemma snapshot_cache_step (m m' : Minion) (message : MessageEnvelope)
    (pubs : list publication) (type' : string) (cache : gmap string string) :
  processMessage m message = Normal (m', pubs) →
  snapshot_cache m type' = Some cache →
  snapshot_cache m' type'
  = Some (if bool_decide (type message = type')
          then assign cache (symbol message) (payload message) else cache).
Proof.
  intros Hrun Hcache.
  destruct (processMessage_normal m m' message pubs Hrun)
    as (_ & _ & _ & _ & Hq & Hl2 & Hl3 & _).
  unfold snapshot_cache in *. rewrite Hq, Hl2, Hl3.
  destruct (decide (type' = "quote")) as [->|Hnq].
  { rewrite bool_decide_eq_true_2 in Hcache |- * by done.
    injection Hcache as <-. by case_bool_decide. }
  rewrite (bool_decide_eq_false_2 (type' = "quote")) in Hcache |- * by done.
  destruct (decide (type' = "l2snapshot")) as [->|Hnl2].
  { rewrite bool_decide_eq_true_2 in Hcache |- * by done.
    injection Hcache as <-. by case_bool_decide. }
  rewrite (bool_decide_eq_false_2 (type' = "l2snapshot")) in Hcache |- * by done.
  destruct (decide (type' = "l3snapshot")) as [->|Hnl3].
  { rewrite bool_decide_eq_true_2 in Hcache |- * by done.
    injection Hcache as <-. by case_bool_decide. }
  by rewrite (bool_decide_eq_false_2 (type' = "l3snapshot")) in Hcache.
Qed.

(** X2. Last write wins over any sequence of events that the worker has
    processed: the cache of a replay-eligible type then holds for each
    symbol the payload of the last event of that type and symbol, and what
    it held before when there was none, so that a subscription made then is
    replayed exactly that payload. The key [__proto__] is the exception: an
    assignment to it is ignored, and its slot stays as it was. *)
Theorem snapshot_cache_holds_latest (messages : list MessageEnvelope) :
  ∀ (m m' : Minion) (pubs : list publication) (type' symbol' : string)
    (cache : gmap string string),
  ingest m messages = Normal (m', pubs) →
  snapshot_cache m type' = Some cache →
  ∃ cache',
    snapshot_cache m' type' = Some cache'
    ∧ cache' !! symbol'
      = match latest type' symbol' messages with
        | Some p => if bool_decide (symbol' = "__proto__") then cache !! symbol' else Some p
        | None => cache !! symbol'
        end
    ∧ replay m' type' symbol'
      = match latest type' symbol' messages with
        | Some p =>
            if bool_decide (symbol' = "__proto__") then replay m type' symbol'
            else [WsSend p]
        | None => replay m type' symbol'
        end.
Proof.
  assert (Hcaches : ∀ (m m' : Minion) (pubs : list publication) (type' symbol' : string)
            (cache : gmap string string),
    ingest m messages = Normal (m', pubs) →
    snapshot_cache m type' = Some cache →
    ∃ cache',
      snapshot_cache m' type' = Some cache'
      ∧ cache' !! symbol'
        = match latest type' symbol' messages with
          | Some p =>
              if bool_decide (symbol' = "__proto__") then cache !! symbol' else Some p
          | None => cache !! symbol'
          end).
  { induction messages as [|message rest IH]; intros m m' pubs type' symbol' cache Hrun Hcache.
    - injection Hrun as <- _. by exists cache.
    - cbn [ingest] in Hrun.
      destruct (processMessage m message) as [[m1 pubs1]|] eqn:Hstep; [|done].
      simpl in Hrun.
      destruct (ingest m1 rest) as [[m2 pubs2]|] eqn:Hrest; [|done].
      simpl in Hrun. injection Hrun as <- _.
      pose proof (snapshot_cache_step m m1 message pubs1 type' cache Hstep Hcache) as Hcache1.
      destruct (IH m1 m2 pubs2 type' symbol' _ Hrest Hcache1) as (cache' & Hcache' & Hlookup).
      exists cache'. split; [done|]. rewrite Hlookup, latest_cons.
      assert (Hstepped :
        (if bool_decide (type message = type')
         then assign cache (symbol message) (payload message) else cache) !! symbol'
        = if bool_decide (type message = type' ∧ symbol message = symbol')
          then (if bool_decide (symbol' = "__proto__") then cache !! symbol'
                else Some (payload message))
          else cache !! symbol').
      { destruct (decide (type message = type')) as [Ht|Ht].
        - rewrite (bool_decide_eq_true_2 (type message = type')) by done.
          rewrite lookup_assign.
          destruct (decide (symbol message = symbol')) as [Hs|Hs].
          + rewrite (bool_decide_eq_true_2 (_ ∧ symbol message = symbol')) by done.
            rewrite Hs. destruct (decide (symbol' = "__proto__")).
            * rewrite bool_decide_eq_false_2 by tauto.
              by rewrite bool_decide_eq_true_2.
            * rewrite bool_decide_eq_true_2 by tauto.
              by rewrite bool_decide_eq_false_2.
          + rewrite bool_decide_eq_false_2 by tauto.
            by rewrite bool_decide_eq_false_2 by tauto.
        - rewrite (bool_decide_eq_false_2 (type message = type')) by done.
          by rewrite bool_decide_eq_false_2 by tauto. }
      rewrite Hstepped.
      destruct (latest type' symbol' rest);
        destruct (bool_decide (symbol' = "__proto__"));
        by destruct (bool_decide (type message = type' ∧ symbol message = symbol')). }
  intros m m' pubs type' symbol' cache Hrun Hcache.
  destruct (Hcaches m m' pubs type' symbol' cache Hrun Hcache) as (cache' & Hcache' & Hlookup).
  exists cache'. split; [done|]. split; [done|].
  unfold replay. rewrite Hcache', Hcache, Hlookup.
  destruct (latest type' symbol' messages); [|done].
  by destruct (bool_decide (symbol' = "__proto__")).
Qed.

Lemma ingest_published (messages : list MessageEnvelope) :
  ∀ m m' pubs, ingest m messages = Normal (m', pubs) → pubs = published messages.
Proof.
  induction messages as [|message rest IH]; intros m m' pubs Hrun.
  - by injection Hrun as _ <-.
  - cbn [ingest] in Hrun.
    destruct (processMessage m message) as [[m1 pubs1]|] eqn:Hstep; [|done].
    simpl in Hrun.
    destruct (ingest m1 rest) as [[m2 pubs2]|] eqn:Hrest; [|done].
    simpl in Hrun. injection Hrun as _ <-.
    destruct (processMessage_normal m m1 message pubs1 Hstep) as (-> & _).
    rewrite (IH m1 m2 pubs2 Hrest). unfold published.
    destruct (publish message) eqn:Hp.
    + by rewrite filter_cons_True.
    + rewrite filter_cons_False; [done|]. by rewrite Hp.
Qed.

(** X3. Where the worker has processed a sequence of events, it has asked to
    publish the events whose publish flag is set and no other, each once, in
    the order they came, to the topic type/symbol and with the payload as it
    came. It processes every sequence none of whose trades has a symbol that
    names a member of [Object.prototype]. *)
Theorem ingest_publishes_flagged (messages : list MessageEnvelope) (m : Minion) :
  (∀ m' pubs, ingest m messages = Normal (m', pubs) → pubs = published messages)
  ∧ ((∀ e, e ∈ messages → type e = "trade" → symbol e ∉ Object_prototype_members) →
     ∃ m', ingest m messages = Normal (m', published messages)).
Proof.
  split.
  - apply ingest_published.
  - intros Hok. by apply ingest_returns.
Qed.

Lemma ingest_publishes_flagged_witness :
  ∃ m',
    ingest (Minion_new example_markets)
      [example_quote; trade "BTC/USDT" "trade-1" true; trade "ETH/USDT" "trade-2" false]
    = Normal (m', published [example_quote; trade "BTC/USDT" "trade-1" true;
                             trade "ETH/USDT" "trade-2" false]).
Proof.
  destruct (ingest_publishes_flagged
              [example_quote; trade "BTC/USDT" "trade-1" true;
               trade "ETH/USDT" "trade-2" false]
              (Minion_new example_markets)) as [_ Hreturns].
  apply Hreturns. intros e He _.
  apply (bool_decide_eq_false_1 (symbol e ∈ Object_prototype_members)).
  repeat (apply elem_of_cons in He as [->|He]; [reflexivity|]).
  by apply elem_of_nil in He.
Defined.

(** X4. An event changes nothing for the other symbols: their cached
    snapshots, their buffers and their serialized trades stay as they are;
    the registry and the cached market list are never touched; and an event
    of a type other than quote, l2snapshot, l3snapshot and trade leaves the
    whole worker as it is (it is only published). *)
Theorem processMessage_frame (m m' : Minion) (message : MessageEnvelope)
    (pubs : list publication) :
  processMessage m message = Normal (m', pubs) →
  _markets m' = _markets m
  ∧ _marketNames m' = _marketNames m
  ∧ _cachedListMarketsResponse m' = _cachedListMarketsResponse m
  ∧ (∀ s, s ≠ symbol message →
       _quotesSerialized m' !! s = _quotesSerialized m !! s
       ∧ _l2SnapshotsSerialized m' !! s = _l2SnapshotsSerialized m !! s
       ∧ _l3SnapshotsSerialized m' !! s = _l3SnapshotsSerialized m !! s
       ∧ _recentTrades m' !! s = _recentTrades m !! s
       ∧ serialized_trades m' s = serialized_trades m s)
  ∧ (type message ∉ ["quote"; "l2snapshot"; "l3snapshot"; "trade"] → m' = m).
Proof.
  intros Hrun.
  destruct (processMessage_normal m m' message pubs Hrun)
    as (_ & Hmarkets & Hnames & Hlist & Hq & Hl2 & Hl3 & Ht & Hts & _ & _ & Hother).
  split_and!; try done.
  intros s Hs. unfold serialized_trades. rewrite Hq, Hl2, Hl3, Ht, Hts.
  clear Hq Hl2 Hl3 Ht Hts Hother.
  split_and!; case_bool_decide; try done; rewrite ?lookup_assign;
    rewrite ?bool_decide_eq_false_2 by (intros [? ?]; congruence);
    try done; by rewrite lookup_insert_ne by congruence.
Qed.

Lemma processMessage_frame_witness :
  ∃ m',
    processMessage example_worker (trade "ETH/USDT" "trade-1" false) = Normal (m', [])
    ∧ _quotesSerialized m' !! "BTC/USDT" = Some "quote-1"
    ∧ _recentTrades m' !! "BTC/USDT" = None.
Proof.
  eexists. split; [reflexivity|].
  destruct (processMessage_frame example_worker _ (trade "ETH/USDT" "trade-1" false) []
              eq_refl) as (_ & _ & _ & Hothers & _).
  destruct (Hothers "BTC/USDT") as (Hq & _ & _ & Ht & _); [done|].
  split; [by rewrite Hq|by rewrite Ht].
Defined.

Lemma snapshot_cache_holds_latest_witness :
  ∃ m' pubs,
    ingest (Minion_new example_markets)
      [example_quote;
       {| type := "quote"; symbol := "BTC/USDT"; payload := "quote-2"; publish := false |}]
    = Normal (m', pubs)
    ∧ replay m' "quote" "BTC/USDT" = [WsSend "quote-2"].
Proof.
  do 2 eexists. split; [reflexivity|].
  destruct (snapshot_cache_holds_latest
              [example_quote;
               {| type := "quote"; symbol := "BTC/USDT"; payload := "quote-2";
                  publish := false |}]
              (Minion_new example_markets) _ _ "quote" "BTC/USDT" ∅ eq_refl eq_refl)
    as (cache' & _ & _ & Hreplay).
  exact Hreplay.
Defined.

(** ** The validator *)

Section ValidatorFacts.
Context `{Imports}.

Lemma includes_string (allowed : list string) (v : jsval) :
  includes allowed v = true →
  v = Some (JString (as_string v)) ∧ as_string v ∈ allowed.
Proof.
  destruct v as [[| | |s| |]|]; try done. simpl. intros Hs.
  split; [done|]. by apply bool_decide_eq_true_1 in Hs.
Qed.

Lemma entries_strings (allowed : list string) (entries : list json) :
  (∀ entry, entry ∈ entries → includes allowed (Some entry) = true) →
  JString <$> ((fun entry => as_string (Some entry)) <$> entries) = entries
  ∧ ∀ market, market ∈ (fun entry => as_string (Some entry)) <$> entries →
      market ∈ allowed.
Proof.
  induction entries as [|entry entries IH]; intros Hall.
  - split; [done|]. intros market Hin. by apply elem_of_nil in Hin.
  - destruct IH as [IHeq IHin]; [intros x Hx; apply Hall; set_solver|].
    destruct (includes_string allowed (Some entry)) as [Hentry Hin];
      [apply Hall; set_solver|].
    rewrite !fmap_cons. split.
    + rewrite IHeq. f_equal. injection Hentry as Hentry. by symmetry.
    + intros market Hmarket. apply elem_of_cons in Hmarket as [->|Hmarket]; [done|].
      by apply IHin.
Qed.

(** X5. A request that the validator accepts is well formed and is the
    message's: its op is one of the two operations, its channel one of the
    channels, it names between 1 and 40 markets, every one of them in the
    registry, and the three are the string and array values of the parsed
    message's [op], [channel] and [markets]. *)
Theorem validated_request_is_well_formed (m : Minion) (message op channel : string)
    (markets : list string) :
  _validateRequestPayload m message = Normal (Valid op channel markets) →
  op ∈ OPS
  ∧ channel ∈ CHANNELS
  ∧ (0 < length markets ≤ 40)%nat
  ∧ (∀ market, market ∈ markets → market ∈ _marketNames m)
  ∧ ∃ payload,
      JSON_parse message = Some payload
      ∧ get payload "op" = Normal (Some (JString op))
      ∧ get payload "channel" = Normal (Some (JString channel))
      ∧ get payload "markets" = Normal (Some (JArray (JString <$> markets))).
Proof.
  unfold _validateRequestPayload. intros Hvalid.
  destruct (JSON_parse message) as [payload|] eqn:Hparse; [|done].
  destruct (get payload "op") as [vop|] eqn:Hop; [|done].
  destruct (get payload "channel") as [vchannel|] eqn:Hchannel;
    [|by destruct payload].
  destruct (get payload "markets") as [vmarkets|] eqn:Hmarkets;
    [|by destruct payload].
  unfold mbind, completion_bind in Hvalid.
  destruct (includes OPS vop) eqn:Hiop;
    [|by destruct (template_literal vop _)].
  destruct (includes CHANNELS vchannel) eqn:Hichannel;
    [|by destruct (template_literal vchannel _)].
  cbn [negb] in Hvalid.
  destruct vmarkets as [[| | | |entries|]|]; try done.
  case_bool_decide as Hempty; [done|].
  case_bool_decide as Hlarge; [done|].
  destruct (find _ entries) as [bad|] eqn:Hfind;
    [by destruct (template_literal (Some bad) _)|].
  injection Hvalid as <- <- <-.
  destruct (includes_string _ _ Hiop) as [Hvop Hop_in].
  destruct (includes_string _ _ Hichannel) as [Hvchannel Hchannel_in].
  destruct (entries_strings (_marketNames m) entries) as [Hentries Hin].
  { intros entry Hentry. apply list_elem_of_In in Hentry.
    pose proof (List.find_none _ _ Hfind entry Hentry) as Hnot.
    by apply negb_false_iff in Hnot. }
  split_and!; try done.
  - rewrite length_fmap. destruct entries; [done|]. simpl. lia.
  - rewrite length_fmap. lia.
  - exists payload. split_and!; [done| | |].
    + by rewrite <- Hvop.
    + by rewrite <- Hvchannel.
    + rewrite Hmarkets. do 3 f_equal. symmetry. exact Hentries.
Qed.

(** X6. The checks of the validator come in a fixed order and the first that
    fails decides the answer, on every payload whose properties can be read
    (every payload but [null]): a message that does not parse is "Invalid
    JSON."; then the op, the channel, the markets array (an array, not
    empty), its length (at most 40, whatever its entries) and its entries
    (the first that is no market of the registry is named) are checked;
    a message that passes them all is accepted as it is. The error of a
    wrong op, channel or market quotes the value in a template literal: it is
    returned when the value converts to a string, and the validator throws a
    TypeError when it does not (an object with a [toString] member, or an
    array that holds one). *)
Theorem validator_checks_in_order (m : Minion) (message : string) :
  (JSON_parse message = None →
     _validateRequestPayload m message = Normal (Invalid "Invalid JSON."))
  ∧ (∀ payload op channel markets,
       JSON_parse message = Some payload →
       get payload "op" = Normal op →
       get payload "channel" = Normal channel →
       get payload "markets" = Normal markets →
       (includes OPS op = false → throws_in_template op = false →
          _validateRequestPayload m message = Normal (Invalid (invalid_op_message op)))
       ∧ (includes OPS op = true → includes CHANNELS channel = false →
          throws_in_template channel = false →
            _validateRequestPayload m message
            = Normal (Invalid (invalid_channel_message channel)))
       ∧ (includes OPS op = true → includes CHANNELS channel = true →
            (∀ entries, markets = Some (JArray entries) → entries = []) →
            _validateRequestPayload m message
            = Normal (Invalid "Invalid or empty markets array provided."))
       ∧ (∀ entries,
            includes OPS op = true → includes CHANNELS channel = true →
            markets = Some (JArray entries) → (40 < length entries)%nat →
            _validateRequestPayload m message
            = Normal (Invalid "Too large markets array provided (> 40 items)."))
       ∧ (∀ good bad rest,
            includes OPS op = true → includes CHANNELS channel = true →
            markets = Some (JArray (good ++ bad :: rest)) →
            (length (good ++ bad :: rest) ≤ 40)%nat →
            (∀ entry, entry ∈ good → includes (_marketNames m) (Some entry) = true) →
            includes (_marketNames m) (Some bad) = false →
            unprintable bad = false →
            _validateRequestPayload m message
            = Normal (Invalid (invalid_market_message (_marketNames m) (Some bad))))
       ∧ (∀ entries,
            includes OPS op = true → includes CHANNELS channel = true →
            markets = Some (JArray entries) →
            (0 < length entries ≤ 40)%nat →
            (∀ entry, entry ∈ entries → includes (_marketNames m) (Some entry) = true) →
            _validateRequestPayload m message
            = Normal (Valid (as_string op) (as_string channel)
                        ((fun entry => as_string (Some entry)) <$> entries)))
       ∧ (includes OPS op = false → throws_in_template op = true →
          _validateRequestPayload m message
          = Throws "TypeError: Cannot convert object to primitive value")
       ∧ (includes OPS op = true → includes CHANNELS channel = false →
          throws_in_template channel = true →
          _validateRequestPayload m message
          = Throws "TypeError: Cannot convert object to primitive value")
       ∧ (∀ good bad rest,
            includes OPS op = true → includes CHANNELS channel = true →
            markets = Some (JArray (good ++ bad :: rest)) →
            (length (good ++ bad :: rest) ≤ 40)%nat →
            (∀ entry, entry ∈ good → includes (_marketNames m) (Some entry) = true) →
            includes (_marketNames m) (Some bad) = false →
            unprintable bad = true →
            _validateRequestPayload m message
            = Throws "TypeError: Cannot convert object to primitive value")).
Proof. exact (validate_checks_in_order m message). Qed.

(** X7. The two ways to name an unknown market give the same error: a control
    message with a valid op and channel whose first market outside the
    registry is the string [marketName] is refused with the very text that
    [_validateMarketName] gives for [marketName], which the HTTP endpoint
    puts in its error body. *)
Theorem unknown_market_same_error (m : Minion) (message marketName : string)
    (payload : json) (op channel : jsval) (good rest : list json) :
  JSON_parse message = Some payload →
  get payload "op" = Normal op → includes OPS op = true →
  get payload "channel" = Normal channel → includes CHANNELS channel = true →
  get payload "markets" = Normal (Some (JArray (good ++ JString marketName :: rest))) →
  (length (good ++ JString marketName :: rest) ≤ 40)%nat →
  (∀ entry, entry ∈ good → includes (_marketNames m) (Some entry) = true) →
  marketName ∉ _marketNames m →
  ∃ text,
    _validateRequestPayload m message = Normal (Invalid text)
    ∧ _validateMarketName m marketName = {| isValid := false; error := Some text |}.
Proof.
  intros Hparse Hop Hiop Hchannel Hichannel Hmarkets Hlen Hgood Hname.
  eexists. split.
  - destruct (validate_checks_in_order m message) as [_ Hchecks].
    destruct (Hchecks payload op channel _ Hparse Hop Hchannel Hmarkets)
      as (_ & _ & _ & _ & Hbad & _).
    apply (Hbad good (JString marketName) rest); try done.
    simpl. by rewrite bool_decide_eq_false_2.
  - unfold _validateMarketName. by rewrite bool_decide_eq_false_2.
Qed.

End ValidatorFacts.

Lemma validated_request_is_well_formed_witness :
  "subscribe" ∈ OPS
  ∧ "level1" ∈ @CHANNELS example_imports
  ∧ (0 < length ["BTC/USDT"; "BTC/USDT"] ≤ 40)%nat.
Proof.
  destruct (@validated_request_is_well_formed example_imports example_worker
              (stringify subscribe_twice) "subscribe" "level1"
              ["BTC/USDT"; "BTC/USDT"])
    as (Hop & Hchannel & Hlen & _).
  - vm_compute. reflexivity.
  - split; [exact Hop|]. split; [exact Hchannel|exact Hlen].
Defined.

Lemma unknown_market_same_error_witness :
  ∃ text,
    @_validateRequestPayload example_imports_more example_worker
      (stringify subscribe_unknown) = Normal (Invalid text)
    ∧ @_validateMarketName example_imports_more example_worker "BTC/XXX"
      = {| isValid := false; error := Some text |}.
Proof.
  apply (@unknown_market_same_error example_imports_more example_worker
           (stringify subscribe_unknown) "BTC/XXX" subscribe_unknown
           (Some (JString "subscribe")) (Some (JString "trades")) [] []).
  - vm_compute. reflexivity.
  - reflexivity.
  - vm_compute. reflexivity.
  - reflexivity.
  - vm_compute. reflexivity.
  - reflexivity.
  - simpl. lia.
  - intros entry Hentry. by apply elem_of_nil in Hentry.
  - apply (bool_decide_eq_false_1 _). vm_compute. reflexivity.
Defined.

(** ** Unsubscribing, and messages in a row *)

Section MoreHandlerFacts.
Context `{Imports}.

Lemma subscribed_topics_app (l k : list ws_call) :
  subscribed_topics (l ++ k) = subscribed_topics l ++ subscribed_topics k.
Proof. apply omap_app. Qed.

Lemma subscribed_topics_replay (m : Minion) (type market : string) :
  subscribed_topics (replay m type market) = [].
Proof.
  unfold replay. destruct (snapshot_cache m type) as [cache|]; [|done].
  by destruct (cache !! market).
Qed.

(** The topics joined in the loops of a subscription: one for each requested
    pair, whatever is cached. *)
Lemma subscribed_topics_loops (m : Minion) (types markets : list string) :
  subscribed_topics
    (flat_map (fun type =>
       flat_map (fun market =>
         WsSubscribe (topic_of type market) :: replay m type market) markets) types)
  = (fun pair => pair.1 +:+ "/" +:+ pair.2) <$> requested_pairs types markets.
Proof.
  unfold requested_pairs.
  induction types as [|type types IH]; [done|].
  cbn [flat_map]. rewrite subscribed_topics_app, fmap_app, IH. f_equal. clear IH.
  induction markets as [|market markets IH]; [done|].
  cbn [flat_map]. rewrite subscribed_topics_app, IH, fmap_cons.
  change (subscribed_topics (WsSubscribe (topic_of type market) :: replay m type market))
    with (topic_of type market :: subscribed_topics (replay m type market)).
  by rewrite subscribed_topics_replay.
Qed.

Lemma unsubscribe_loops (types markets : list string) :
  flat_map (fun type =>
    flat_map (fun market => [WsUnsubscribe (topic_of type market)]) markets) types
  = (fun pair => WsUnsubscribe (pair.1 +:+ "/" +:+ pair.2))
      <$> requested_pairs types markets.
Proof.
  unfold requested_pairs.
  induction types as [|type types IH]; [done|].
  cbn [flat_map]. rewrite fmap_app, IH. f_equal. clear IH.
  induction markets as [|market markets IH]; [done|].
  cbn [flat_map]. by rewrite IH.
Qed.

(** Whatever the message, the limiter's answer on it is stored on the
    connection and the handler returns. *)
Lemma handler_fields (m : Minion) (now' : Z) (timestamp buffer : string)
    (ws : WebSocket) :
  ∃ made,
    _handleSubscriptionRequest m now' timestamp ws buffer
    = Normal {| limiter_fields :=
                  Some (RateLimiter.RateLimit MAX_MESSAGES_PER_SECOND now'
                          (limiter_fields ws)).1;
                calls := made |}.
Proof.
  destruct (try_block m
              (RateLimiter.RateLimit MAX_MESSAGES_PER_SECOND now' (limiter_fields ws)).2
              timestamp buffer (calls ws)) as [[[]|err] made] eqn:Hbody.
  - eexists. by apply handler_normal.
  - eexists. by apply (handler_caught _ _ _ _ _ made err).
Qed.

(** After any messages in a row in one window, valid or not, the connection
    holds the window and their number. *)
Lemma handle_all_counts (m : Minion) (now' : Z) (messages : list (string * string)) :
  ∀ ws n,
    limiter_fields ws
    = Some {| RateLimiter.last := now'; RateLimiter.count := n |} →
    ∃ ws',
      handle_all m now' ws messages = Normal ws'
      ∧ limiter_fields ws'
        = Some {| RateLimiter.last := now';
                  RateLimiter.count := n + Z.of_nat (length messages) |}.
Proof.
  induction messages as [|[timestamp buffer] rest IH]; intros ws n Hfields.
  - exists ws. split; [done|]. rewrite Hfields. do 2 f_equal. simpl. lia.
  - destruct (handler_fields m now' timestamp buffer ws) as [made Hrun].
    cbn [handle_all]. rewrite Hrun. simpl.
    destruct (IH {| limiter_fields :=
                      Some (RateLimiter.RateLimit MAX_MESSAGES_PER_SECOND now'
                              (limiter_fields ws)).1;
                    calls := made |} (n + 1)) as (ws' & Hrest & Hcount).
    + simpl. rewrite Hfields. unfold RateLimiter.RateLimit. simpl.
      by rewrite bool_decide_eq_false_2 by tauto.
    + exists ws'. split; [done|]. rewrite Hcount. do 2 f_equal. simpl length. lia.
Qed.

Section OpenConnectionMore.
Hypothesis ws_open : ∀ done c, ws_throws done c = false.

Lemma try_block_unsubscribe (m : Minion) (timestamp buffer channel : string)
    (markets types : list string) (done : list ws_call) :
  _validateRequestPayload m buffer = Normal (Valid "unsubscribe" channel markets) →
  MESSAGE_TYPES_PER_CHANNEL !! channel = Some types →
  try_block m false timestamp buffer done
  = (Normal tt,
     done ++ WsSend (JSON_stringify
                       (SuccessResponse "unsubscribed" channel markets timestamp))
          :: ((fun pair => WsUnsubscribe (pair.1 +:+ "/" +:+ pair.2))
                <$> requested_pairs types markets)).
Proof.
  intros Hvalid Htypes. unfold try_block.
  rewrite (effect_bind_ok _ _ done done (Valid "unsubscribe" channel markets))
    by (unfold lift; by rewrite Hvalid).
  rewrite bool_decide_eq_false_2 by done.
  rewrite (effect_bind_ok _ _ _ _ _ (ws_do_ok _ done (ws_open _ _))).
  rewrite (effect_bind_ok _ _ _ (done ++ [WsSend (JSON_stringify
             (SuccessResponse "unsubscribed" channel markets timestamp))]) types)
    by (unfold lift; by rewrite Htypes).
  rewrite (for_of_ok _ (fun type => flat_map (fun market =>
             [WsUnsubscribe (topic_of type market)]) markets)).
  - by rewrite unsubscribe_loops, <- app_assoc.
  - intros type done'. apply for_of_ok. intros market done''.
    unfold subscribe_market. rewrite bool_decide_eq_false_2 by done.
    by apply ws_do_ok.
Qed.

(** X8. An unsubscribe message that passes the rate limiter and the validator,
    on a connection whose methods go through: the handler sends the
    confirmation [unsubscribed] and then leaves the topic of every requested
    pair, in the order of the loops; it sends nothing else, whatever the
    caches hold. *)
Theorem unsubscribe_leaves_every_topic (m : Minion) (now' : Z)
    (timestamp buffer channel : string) (ws : WebSocket)
    (markets types : list string) :
  (RateLimiter.RateLimit MAX_MESSAGES_PER_SECOND now' (limiter_fields ws)).2 = false →
  _validateRequestPayload m buffer = Normal (Valid "unsubscribe" channel markets) →
  MESSAGE_TYPES_PER_CHANNEL !! channel = Some types →
  ∃ fields,
    _handleSubscriptionRequest m now' timestamp ws buffer
    = Normal {| limiter_fields := Some fields;
                calls :=
                  calls ws
                  ++ WsSend (JSON_stringify
                               (SuccessResponse "unsubscribed" channel markets timestamp))
                  :: ((fun pair => WsUnsubscribe (pair.1 +:+ "/" +:+ pair.2))
                        <$> requested_pairs types markets) |}.
Proof.
  intros Hlimit Hvalid Htypes. eexists. apply handler_normal. rewrite Hlimit.
  by apply try_block_unsubscribe.
Qed.


(** X10. Every message counts against the limit, and a message over the limit
    is not looked at: after 50 or more messages of a connection in one
    window, whatever they were, the next message of the window, whatever it
    is, is answered by the error of the rate limiter alone. *)
Theorem messages_over_the_limit_are_refused (m : Minion) (now' : Z)
    (ws : WebSocket) (first : string * string) (others : list (string * string))
    (timestamp next : string) :
  (∀ f, limiter_fields ws = Some f → RateLimiter.last f ≠ now') →
  (50 ≤ length (first :: others))%nat →
  ∃ ws',
    handle_all m now' ws (first :: others) = Normal ws'
    ∧ _handleSubscriptionRequest m now' timestamp ws' next
      = Normal {| limiter_fields :=
                    Some {| RateLimiter.last := now';
                            RateLimiter.count :=
                              Z.of_nat (length (first :: others)) + 1 |};
                  calls := calls ws'
                    ++ [WsSend (JSON_stringify
                                  (ErrorResponse rate_limit_message timestamp))] |}.
Proof.
  intros Hfresh Hmany. destruct first as [timestamp0 buffer0].
  destruct (handler_fields m now' timestamp0 buffer0 ws) as [made Hfirst].
  assert (Hreset : (RateLimiter.RateLimit MAX_MESSAGES_PER_SECOND now'
                      (limiter_fields ws)).1
                   = {| RateLimiter.last := now'; RateLimiter.count := 1 |}).
  { unfold RateLimiter.RateLimit. destruct (limiter_fields ws) as [f|] eqn:Hf; [|done].
    by rewrite bool_decide_eq_true_2 by by apply Hfresh. }
  rewrite Hreset in Hfirst.
  destruct (handle_all_counts m now' others
              {| limiter_fields :=
                   Some {| RateLimiter.last := now'; RateLimiter.count := 1 |};
                 calls := made |} 1 eq_refl) as (ws' & Hrest & Hcount).
  exists ws'. split.
  - cbn [handle_all]. rewrite Hfirst. exact Hrest.
  - assert (Hlimited : RateLimiter.RateLimit MAX_MESSAGES_PER_SECOND now'
                         (limiter_fields ws')
                       = ({| RateLimiter.last := now';
                             RateLimiter.count :=
                               Z.of_nat (length ((timestamp0, buffer0) :: others)) + 1 |},
                          true)).
    { rewrite Hcount. unfold RateLimiter.RateLimit. cbn [RateLimiter.last RateLimiter.count].
      rewrite bool_decide_eq_false_2 by tauto.
      rewrite bool_decide_eq_true_2
        by (unfold MAX_MESSAGES_PER_SECOND; simpl length in *; lia).
      do 2 f_equal. simpl length. lia. }
    rewrite (handler_normal m now' timestamp next ws'
               (calls ws' ++ [WsSend (JSON_stringify
                                        (ErrorResponse rate_limit_message timestamp))])).
    + by rewrite Hlimited.
    + rewrite Hlimited. unfold try_block. cbn [snd]. by apply ws_do_ok.
Qed.

End OpenConnectionMore.
End MoreHandlerFacts.

Lemma unsubscribe_leaves_every_topic_witness :
  ∃ fields,
    @_handleSubscriptionRequest example_imports_more example_worker 0 example_time
      example_ws (stringify unsubscribe_once)
    = Normal {| limiter_fields := Some fields;
                calls :=
                  [WsSend (stringify (SuccessResponse "unsubscribed" "level1"
                                        ["BTC/USDT"] example_time));
                   WsUnsubscribe "trade/BTC/USDT"; WsUnsubscribe "quote/BTC/USDT"] |}.
Proof.
  destruct (@unsubscribe_leaves_every_topic example_imports_more
              (fun _ _ => eq_refl) example_worker 0 example_time
              (stringify unsubscribe_once) "level1" example_ws
              ["BTC/USDT"] ["trade"; "quote"]) as [fields Hrun].
  - reflexivity.
  - vm_compute. reflexivity.
  - vm_compute. reflexivity.
  - exists fields. rewrite Hrun. vm_compute. reflexivity.
Defined.


Lemma messages_over_the_limit_are_refused_witness :
  ∃ ws',
    @handle_all example_imports example_worker 0 example_ws
      (replicate 50 (example_time, stringify subscribe_twice)) = Normal ws'
    ∧ @_handleSubscriptionRequest example_imports example_worker 0 example_time ws'
        (stringify subscribe_twice)
      = Normal {| limiter_fields :=
                    Some {| RateLimiter.last := 0; RateLimiter.count := 51 |};
                  calls := calls ws'
                    ++ [WsSend (stringify (ErrorResponse rate_limit_message example_time))] |}.
Proof.
  apply (@messages_over_the_limit_are_refused example_imports (fun _ _ => eq_refl)
           example_worker 0 example_ws (example_time, stringify subscribe_twice)
           (replicate 49 (example_time, stringify subscribe_twice))
           example_time (stringify subscribe_twice)).
  - intros f Hf. discriminate Hf.
  - vm_compute. lia.
Defined.

(** ** The handler ends a connection only on an exception *)

Section KeepsOpen.
Context `{Imports}.

Lemma keeps_open_ret {A : Type} (a : A) : keeps_open (mret a).
Proof.
  intros done r done' Hrun. injection Hrun as <- <-.
  exists []. by rewrite app_nil_r.
Qed.

Lemma keeps_open_lift {A : Type} (c : completion A) : keeps_open (lift c).
Proof.
  intros done r done' Hrun. injection Hrun as <- <-.
  exists []. by rewrite app_nil_r.
Qed.

Lemma keeps_open_bind {A B : Type} (c : effect A) (k : A → effect B) :
  keeps_open c → (∀ a, keeps_open (k a)) → keeps_open (c ≫= k).
Proof.
  intros Hc Hk done r done' Hrun. unfold mbind, effect_bind in Hrun.
  destruct (c done) as [[a|err] done1] eqn:Hfirst.
  - destruct (Hc _ _ _ Hfirst) as (added1 & -> & Hadded1).
    destruct (Hk a _ _ _ Hrun) as (added2 & -> & Hadded2).
    exists (added1 ++ added2). split; [by rewrite app_assoc|].
    by apply Forall_app.
  - injection Hrun as <- <-. by apply (Hc _ _ _ Hfirst).
Qed.

Lemma keeps_open_ws_do (c : ws_call) : not_end c → keeps_open (ws_do c).
Proof.
  intros Hc done r done' Hrun. unfold ws_do in Hrun.
  destruct (ws_throws done c); injection Hrun as <- <-.
  - exists []. by rewrite app_nil_r.
  - exists [c]. split; [done|]. by apply Forall_singleton.
Qed.

Lemma keeps_open_for_of {A : Type} (l : list A) (body : A → effect unit) :
  (∀ x, keeps_open (body x)) → keeps_open (for_of l body).
Proof.
  intros Hbody. induction l as [|x rest IH]; simpl.
  - apply keeps_open_ret.
  - apply keeps_open_bind; [apply Hbody|]. intros _. apply IH.
Qed.

Lemma keeps_open_subscribe_market (m : Minion) (op type market : string) :
  keeps_open (subscribe_market m op type market).
Proof.
  unfold subscribe_market. case_bool_decide.
  - apply keeps_open_bind; [by apply keeps_open_ws_do|]. intros _.
    apply keeps_open_bind.
    { case_bool_decide; [|apply keeps_open_ret].
      destruct (_quotesSerialized m !! market);
        [by apply keeps_open_ws_do|apply keeps_open_ret]. }
    intros _. apply keeps_open_bind.
    { case_bool_decide; [|apply keeps_open_ret].
      destruct (_l2SnapshotsSerialized m !! market);
        [by apply keeps_open_ws_do|apply keeps_open_ret]. }
    intros _. case_bool_decide; [|apply keeps_open_ret].
    destruct (_l3SnapshotsSerialized m !! market);
      [by apply keeps_open_ws_do|apply keeps_open_ret].
  - by apply keeps_open_ws_do.
Qed.

Lemma keeps_open_try_block (m : Minion) (limited : bool) (timestamp buffer : string) :
  keeps_open (try_block m limited timestamp buffer).
Proof.
  unfold try_block. destruct limited; [by apply keeps_open_ws_do|].
  apply keeps_open_bind; [apply keeps_open_lift|].
  intros [error|op channel markets]; [by apply keeps_open_ws_do|].
  apply keeps_open_bind; [by apply keeps_open_ws_do|]. intros _.
  apply keeps_open_bind; [apply keeps_open_lift|]. intros types.
  apply keeps_open_for_of. intros type. apply keeps_open_for_of. intros market.
  apply keeps_open_subscribe_market.
Qed.

(** X11. The handler only adds calls to those already made on the connection,
    and among the calls it adds, whatever the message and whatever throws,
    there is at most one that ends the connection: [ws.end(1011, ...)] with
    the generic message, as the last call, and only when the [try] block
    threw. A message that is handled without an exception never ends the
    connection. *)
Theorem handler_ends_only_on_exception (m : Minion) (now' : Z)
    (timestamp buffer : string) (ws : WebSocket) :
  ∃ ws' added,
    _handleSubscriptionRequest m now' timestamp ws buffer = Normal ws'
    ∧ calls ws' = calls ws ++ added
    ∧ (Forall not_end added
       ∨ ∃ err before,
           try_block m
             (RateLimiter.RateLimit MAX_MESSAGES_PER_SECOND now' (limiter_fields ws)).2
             timestamp buffer (calls ws) = (Throws err, calls ws ++ before)
           ∧ added = before ++ [WsEnd 1011 internal_error_message]
           ∧ Forall not_end before).
Proof.
  destruct (try_block m
              (RateLimiter.RateLimit MAX_MESSAGES_PER_SECOND now' (limiter_fields ws)).2
              timestamp buffer (calls ws)) as [[[]|err] made] eqn:Hbody.
  - destruct (keeps_open_try_block _ _ _ _ _ _ _ Hbody) as (added & -> & Hadded).
    do 2 eexists. split; [by apply handler_normal|]. split; [reflexivity|]. by left.
  - destruct (keeps_open_try_block _ _ _ _ _ _ _ Hbody) as (before & -> & Hbefore).
    pose proof (handler_caught m now' timestamp buffer ws (calls ws ++ before) err Hbody)
      as Hrun.
    destruct (ws_throws (calls ws ++ before) (WsEnd 1011 internal_error_message)).
    + eexists. exists before. split; [exact Hrun|]. split; [reflexivity|]. by left.
    + eexists. exists (before ++ [WsEnd 1011 internal_error_message]).
      split; [exact Hrun|]. split; [by rewrite <- app_assoc|].
      right. by exists err, before.
Qed.

End KeepsOpen.

(** ** The market list and its cache *)

Section MarketsFacts.
Context `{Imports}.

(** X12. When the load of the markets resolves, the handler stores the
    serialized list and posts it once on the channel of the workers, whether
    or not the client has left meanwhile, and writes it on the response only
    if the client has not. From then on this worker, and every worker that
    takes the posted list with [initMarketsCache], answers a request at once
    with that list, without loading. *)
Theorem markets_list_is_cached_and_shared (m sibling : Minion) (res : HttpResponse)
    (markets : json) :
  aborted res = discarded res →
  ∃ m' res',
    _listMarkets_resumed m res (Some markets)
    = Normal (m', [JSON_stringify_indented markets], res')
    ∧ _cachedListMarketsResponse m' = Some (JSON_stringify_indented markets)
    ∧ written res'
      = (if discarded res then written res
         else written res
              ++ [ResWriteHeader "content-type" "application/json";
                  ResEnd (JSON_stringify_indented markets)])
    ∧ _listMarkets m' HttpResponse_new
      = Normal (Finished
          {| discarded := false; onAborted := true; aborted := false;
             written := [ResWriteHeader "content-type" "application/json";
                         ResEnd (JSON_stringify_indented markets)] |})
    ∧ _listMarkets (initMarketsCache sibling (JSON_stringify_indented markets))
        HttpResponse_new
      = Normal (Finished
          {| discarded := false; onAborted := true; aborted := false;
             written := [ResWriteHeader "content-type" "application/json";
                         ResEnd (JSON_stringify_indented markets)] |}).
Proof.
  intros Hflag. unfold _listMarkets_resumed.
  assert (Hlater : ∀ w,
    _listMarkets (set_markets_response w (Some (JSON_stringify_indented markets)))
      HttpResponse_new
    = Normal (Finished
        {| discarded := false; onAborted := true; aborted := false;
           written := [ResWriteHeader "content-type" "application/json";
                       ResEnd (JSON_stringify_indented markets)] |})).
  { intros w. unfold _listMarkets. cbn [set_markets_response _cachedListMarketsResponse].
    by rewrite respond_open. }
  destruct (discarded res) eqn:Hleft.
  - rewrite respond_aborted by done. do 2 eexists. split; [reflexivity|].
    split; [done|]. split; [done|]. split; apply Hlater.
  - rewrite respond_open by done. do 2 eexists. split; [reflexivity|].
    split; [done|]. split; [done|]. split; apply Hlater.
Qed.

Lemma markets_step_inv (r r' : request) :
  step GetMarkets r r' → markets_inv r → markets_inv r'.
Proof.
  intros Hstep Hr. unfold markets_inv in Hr.
  destruct Hstep as [r Hstage|r Hstage|r m Hstage|r loaded Hstage]; rewrite Hstage in Hr.
  - unfold handle, _listMarkets. rewrite Hr.
    destruct (_cachedListMarketsResponse (worker r)) as [cached|] eqn:Hcached.
    + rewrite respond_open by done. unfold markets_inv. cbn. intros _. by exists cached.
    + unfold markets_inv. by cbn.
  - destruct Hr as (Hcallback & Hwritten & _).
    unfold markets_inv. cbn. by rewrite Hcallback.
  - done.
  - destruct Hr as (Hcallback & Hwritten & Hflag).
    unfold resume, _listMarkets_resumed. destruct loaded as [markets|].
    + destruct (aborted (response r)) eqn:Ha.
      * rewrite respond_aborted by done. unfold markets_inv. cbn. congruence.
      * rewrite respond_open by congruence. unfold markets_inv. cbn.
        intros _. eexists. by rewrite Hwritten.
    + unfold markets_inv. by cbn.
Qed.

(** X13. Whatever the course of a request of the market list (the cache
    filled or not when it arrives, other handlers running and changing the
    worker while it waits, the load resolving to anything): if the handler
    returns and the client is still there, the response is the content type
    and one body, and that body is the list the worker holds cached at that
    moment. *)
Theorem markets_answer_is_the_cached_list (m : Minion) (r : request) :
  rtc (step GetMarkets) (arrival m) r →
  at_stage r = Returned →
  discarded (response r) = false →
  ∃ body,
    written (response r)
    = [ResWriteHeader "content-type" "application/json"; ResEnd body]
    ∧ _cachedListMarketsResponse (worker r) = Some body.
Proof.
  intros Hrun.
  assert (Hinv : markets_inv r).
  { revert r Hrun. apply rtc_ind_r; [done|].
    intros r r' _ Hstep Hr. by eapply markets_step_inv. }
  intros Hstage Hthere.
  unfold markets_inv in Hinv. rewrite Hstage in Hinv. by apply Hinv.
Qed.

End MarketsFacts.

Lemma markets_list_is_cached_and_shared_witness :
  ∃ m' res',
    @_listMarkets_resumed example_imports (Minion_new example_markets)
      (client_abort (res_onAborted HttpResponse_new)) (Some (JArray []))
    = Normal (m', ["[]"], res')
    ∧ written res' = []
    ∧ _listMarkets m' HttpResponse_new
      = Normal (Finished
          {| discarded := false; onAborted := true; aborted := false;
             written := [ResWriteHeader "content-type" "application/json";
                         ResEnd "[]"] |}).
Proof.
  destruct (@markets_list_is_cached_and_shared example_imports
              (Minion_new example_markets) (Minion_new example_markets)
              (client_abort (res_onAborted HttpResponse_new)) (JArray []) eq_refl)
    as (m' & res' & Hrun & _ & Hwritten & Hlater & _).
  exists m', res'. split; [exact Hrun|]. split; [exact Hwritten|exact Hlater].
Defined.

Lemma markets_answer_is_the_cached_list_witness :
  ∃ body,
    written (response example_answered_request)
    = [ResWriteHeader "content-type" "application/json"; ResEnd body]
    ∧ _cachedListMarketsResponse (worker example_answered_request) = Some body.
Proof.
  apply (@markets_answer_is_the_cached_list example_imports
           (Minion_new example_markets) example_answered_request);
    [|reflexivity|reflexivity].
  eapply rtc_l; [apply step_handle; reflexivity|].
  eapply rtc_l; [apply (step_resume _ _ (Some (JArray []))); reflexivity|].
  apply rtc_refl.
Defined.
